(** * Mondeto signaling relay: the [Session] class of [src/app.ts] and of
    [src/app.js], embedded as state-passing functions, and the properties
    of the relay protocol proved about them. *)

From Stdlib Require Import ZArith String List Sorted Lia.
From Stdlib Require Import Floats.SpecFloat.
From stdpp Require Import base option list strings gmap pretty.

Set Warnings "-register-all".

Local Open Scope string_scope.
Local Open Scope list_scope.
Local Open Scope Z_scope.

(** ** JavaScript values that [JSON.parse] produces *)

(** A value as [JSON.parse] returns it.  A number is an IEEE double:
    [JNumber n] is the finite double whose value is the integer [n] (the two
    zeros are not told apart: [Map] and [===] do not, and [JSON.stringify]
    writes 0 for both), [JFraction m e] the finite double [m * 2^e] that is
    no integer, [JInfinity] the two infinities, which [JSON.parse] returns
    for a numeral beyond the range of doubles.  [JSON_number] below gives
    the value read from an integer numeral; an integer that is no double is
    the [n] of no value that [JSON.parse] returns.  The identifiers of the
    session are numbers of the first kind, and below [2^53] the increment of
    such a number is exact: the counter is an integer, and the model
    describes the runs whose counter stays below [2^53] (see
    [nextNodeID_bound]).  An object is its set of own properties; the order
    of the properties in the serialised text is not part of the value. *)
Inductive json : Type :=
| JNull
| JBool (b : bool)
| JNumber (n : Z)
| JString (s : string)
| JArray (elems : list json)
| JObject (props : gmap string json)
| JFraction (m e : Z)
| JInfinity (negative : bool).

(** What the receiver's [JSON.parse] reads from the text that
    [JSON.stringify(v)] writes: a number that is not finite is written
    [null], inside arrays and objects too; every other value is written so
    that it reads back as it is. *)
Fixpoint written (v : json) : json :=
  match v with
  | JInfinity _ => JNull
  | JArray elems => JArray (map written elems)
  | JObject props => JObject (written <$> props)
  | JNull | JBool _ | JNumber _ | JString _ | JFraction _ _ => v
  end.

(** The value that [JSON.parse] reads from the integer numeral [z]: the
    double nearest to [z], ties to even, as the Standard Library's
    specification of IEEE 754 binary64 rounds it. *)
Definition JSON_number (z : Z) : json :=
  match binary_normalize 53 1024 z 0 false with
  | S754_zero _ => JNumber 0
  | S754_infinity negative => JInfinity negative
  | S754_nan => JNull
  | S754_finite negative m e =>
      let v := if negative then Z.neg m else Z.pos m in
      if 0 <=? e then JNumber (v * 2 ^ e)
      else if Z.pos m mod 2 ^ (- e) =? 0 then JNumber (v / 2 ^ (- e))
      else JFraction v e
  end.

(** A property that is absent reads as [undefined]: [None]. *)
Definition jsvalue : Type := option json.

Inductive Error : Type :=
| SyntaxError
| TypeError.

(** The text of a message, as far as [JSON.parse] tells texts apart. *)
Inductive data : Type :=
| NotJSON (text : string)
| JSONText (v : json).

(** The result of running a statement: it completes or it throws. *)
Inductive completion (A : Type) : Type :=
| Normal (a : A)
| Throw (e : Error).
Arguments Normal {A} a.
Arguments Throw {A} e.

(** Statements read and write a store [St]; what was written before a
    [throw] stays written. *)
Definition M (St A : Type) : Type := St -> completion A * St.

Definition ret {St A} (a : A) : M St A := fun s => (Normal a, s).

Definition bind {St A B} (m : M St A) (k : A -> M St B) : M St B :=
  fun s =>
    match m s with
    | (Normal a, s') => k a s'
    | (Throw e, s') => (Throw e, s')
    end.

Definition throw {St A} (e : Error) : M St A := fun s => (Throw e, s).

Definition try_catch {St A} (body : M St A) (handler : Error -> M St A) : M St A :=
  fun s =>
    match body s with
    | (Normal a, s') => (Normal a, s')
    | (Throw e, s') => handler e s'
    end.

Definition get {St} : M St St := fun s => (Normal s, s).
Definition modify {St} (f : St -> St) : M St unit := fun s => (Normal tt, f s).

(** A pure expression that may throw, used as a statement. *)
Definition lift {St A} (c : completion A) : M St A := fun s => (c, s).

Definition gets {St A} (f : St -> A) : M St A := fun s => (Normal (f s), s).

Declare Scope js_scope.
Delimit Scope js_scope with js.
Notation "'let!' x ':=' m 'in' k" := (bind m (fun x => k))
  (at level 10, x pattern, m at level 100, k at level 200) : js_scope.
Notation "m ;; k" := (bind m (fun _ => k))
  (at level 100, k at level 200, right associativity) : js_scope.
Local Open Scope js_scope.

(** [JSON.parse(data)]: the value of the text, or a [SyntaxError]. *)
Definition JSON_parse {St} (d : data) : M St json :=
  match d with
  | NotJSON _ => throw SyntaxError
  | JSONText v => ret v
  end.

(** Whether [ToString(v)], which a template literal applies to each
    substitution, throws.  A plain object answers through
    [Object.prototype.toString] unless an own property [toString] hides it:
    a parsed value is never callable, and [Object.prototype.valueOf] returns
    the object, so the conversion ends in a [TypeError].  An array joins the
    [ToString] of its elements ([null] is skipped). *)
Fixpoint ToString_throws (v : json) : bool :=
  match v with
  | JArray elems => existsb ToString_throws elems
  | JObject props => bool_decide (is_Some (props !! "toString"))
  | _ => false
  end.

(** [console.log(`...${v1}...${v2}...`)]: the substitutions are converted
    left to right; the line written is not part of the model. *)
Definition console_log {St} (substitutions : list jsvalue) : M St unit :=
  if existsb (fun v => from_option ToString_throws false v) substitutions
  then throw TypeError
  else ret tt.

(** [msg["nodeID"]]: a [TypeError] on [null]; a primitive or an array that
    [JSON.parse] made has no such property on itself or its prototype. *)
Definition get_nodeID (msg : json) : completion jsvalue :=
  match msg with
  | JNull => Throw TypeError
  | JObject props => Normal (props !! "nodeID")
  | JBool _ | JNumber _ | JString _ | JArray _ | JFraction _ _ | JInfinity _ => Normal None
  end.

(** [msg["nodeID"] = nodeID] in strict mode code (both files are: the
    script opens with 'use strict', the TypeScript file is a module), as
    [JSON.stringify(msg)] reads [msg] afterwards.  Creating a property on a
    primitive throws; an array takes the property beside its elements, and
    [JSON.stringify] writes the elements only. *)
Definition assign_nodeID (msg : json) (nodeID : Z) : completion json :=
  match msg with
  | JNull | JBool _ | JNumber _ | JString _ | JFraction _ _ | JInfinity _ => Throw TypeError
  | JArray elems => Normal (JArray elems)
  | JObject props => Normal (JObject (<["nodeID" := JNumber nodeID]> props))
  end.

(** The own enumerable properties that a rest pattern copies: the
    elements of an array and the characters of a string under their
    indices, nothing for the other primitives. *)
Definition own_enumerable (v : json) : gmap string json :=
  match v with
  | JObject props => props
  | JArray elems => list_to_map (imap (fun (i : nat) x => (pretty i, x)) elems)
  | JString s =>
      list_to_map (imap (fun (i : nat) c => (pretty i, JString (String c EmptyString)))
                        (list_ascii_of_string s))
  | JNull | JBool _ | JNumber _ | JFraction _ _ | JInfinity _ => ∅
  end.

(** [const { nodeID: nodeID, ...rest } = v]. *)
Definition destructure (v : json) : completion (jsvalue * gmap string json) :=
  match get_nodeID v with
  | Throw e => Throw e
  | Normal nodeID => Normal (nodeID, delete "nodeID" (own_enumerable v))
  end.

(** ** Connections and the listeners the session registers on them *)

(** A [WebSocket] object, by identity. *)
Definition WebSocket : Type := nat.

(** The closures passed to [ws.on('message', ...)]. *)
Inductive MessageListener : Type :=
| OnServerMessage
| OnClientMessage (nodeID : Z).

(** The closures passed to [ws.on('close', ...)]. *)
Inductive CloseListener : Type :=
| OnServerClose
| OnClientClose (nodeID : Z).

(** The session object, the listeners of every connection and the
    messages handed to [ws.send], oldest first; a message is the value
    that the text [JSON.stringify] produced reads as. *)
Record World (Session : Type) : Type := mkWorld {
  this : Session;
  on_message : gmap WebSocket (list MessageListener);
  on_close : gmap WebSocket (list CloseListener);
  sent : list (WebSocket * json)
}.
Arguments mkWorld {Session}.
Arguments this {Session}.
Arguments on_message {Session}.
Arguments on_close {Session}.
Arguments sent {Session}.

Section Transport.
Context {Session : Type}.

Definition update_this (f : Session -> Session) : M (World Session) unit :=
  modify (fun w => mkWorld (f (this w)) (on_message w) (on_close w) (sent w)).

(** [ws.send(JSON.stringify(v))].  The [ws] library is not part of the
    sources; sending is taken as fire and forget, whatever the state of the
    connection: what [JSON.stringify] wrote joins the outbox and [send]
    returns. *)
Definition ws_send (ws : WebSocket) (v : json) : M (World Session) unit :=
  modify (fun w =>
    mkWorld (this w) (on_message w) (on_close w) (sent w ++ [(ws, written v)])).

(** [ws.on('message', l)] and [ws.on('close', l)]. *)
Definition ws_on_message (ws : WebSocket) (l : MessageListener) : M (World Session) unit :=
  modify (fun w =>
    mkWorld (this w) (<[ws := default [] (on_message w !! ws) ++ [l]]> (on_message w))
            (on_close w) (sent w)).

Definition ws_on_close (ws : WebSocket) (l : CloseListener) : M (World Session) unit :=
  modify (fun w =>
    mkWorld (this w) (on_message w)
            (<[ws := default [] (on_close w !! ws) ++ [l]]> (on_close w)) (sent w)).

(** [emitter.emit(...)]: the listeners run in the order they were
    registered; one that throws ends the emit. *)
Fixpoint emit {L} (call : L -> M (World Session) unit) (ls : list L) : M (World Session) unit :=
  match ls with
  | [] => ret tt
  | l :: ls' => call l ;; emit call ls'
  end.
End Transport.

(** [Map.prototype.has] and [get] of the registry at a key that came out of
    a message: keys are compared by [SameValueZero], so only a number finds
    an entry. *)
Definition Map_get (clients : gmap Z WebSocket) (key : jsvalue) : option WebSocket :=
  match key with
  | Some (JNumber n) => clients !! n
  | _ => None
  end.

Definition Map_has (clients : gmap Z WebSocket) (key : jsvalue) : bool :=
  bool_decide (is_Some (Map_get clients key)).

(** What arrives from outside: an upgrade request on one of the two paths,
    which emits 'connection' on the matching pool, and the 'message' and
    'close' events of a connection. *)
Inductive event : Type :=
| ServerConnection (ws : WebSocket)
| ClientConnection (ws : WebSocket)
| MessageEvent (ws : WebSocket) (d : data)
| CloseEvent (ws : WebSocket).

Definition serverNodeID : Z := 0.

Definition error_message : json := JObject {[ "type" := JString "error" ]}.

Definition hello_message (nodeID : Z) (iceServerUrl : string) : json :=
  JObject (<["type" := JString "hello"]>
          (<["nodeID" := JNumber nodeID]>
          {[ "iceServerUrl" := JString iceServerUrl ]})).

Definition clientConnected_message (nodeID : Z) : json :=
  JObject (<["type" := JString "clientConnected"]> {[ "nodeID" := JNumber nodeID ]}).

(** ** [src/app.ts] *)

Module TS.

Module Session.
(** The fields of [class Session]; the two [WebSocket.Server] pools are
    fixed at construction and appear as the two connection events. *)
Record t : Type := mk {
  iceServerUrl : string;
  serverWS : option WebSocket;
  clients : gmap Z WebSocket;
  nextNodeID : Z
}.
End Session.

Definition set_serverWS (v : option WebSocket) (s : Session.t) : Session.t :=
  Session.mk (Session.iceServerUrl s) v (Session.clients s) (Session.nextNodeID s).
Definition set_clients (v : gmap Z WebSocket) (s : Session.t) : Session.t :=
  Session.mk (Session.iceServerUrl s) (Session.serverWS s) v (Session.nextNodeID s).
Definition set_nextNodeID (v : Z) (s : Session.t) : Session.t :=
  Session.mk (Session.iceServerUrl s) (Session.serverWS s) (Session.clients s) v.

(** [constructor(iceServerUrl: string)] *)
Definition constructor (iceServerUrl : string) : Session.t :=
  Session.mk iceServerUrl None ∅ (serverNodeID + 1).

Section Program.
(** [const iceServerUrl = config["iceServerUrl"] as string], read from
    [config.yml] when the program starts. *)
Variable iceServerUrl : string.

(** [handleServerMessage(data)], lines 60 to 72.  The substitution of the
    first and of the last log line is a string or an error, which always
    converts; [?.] skips the call on [undefined]. *)
Definition handleServerMessage (d : data) : M (World Session.t) unit :=
  console_log [] ;;
  try_catch
    (let! v := JSON_parse d in
     let! (nodeID, rest) := lift (destructure v) in
     let! self := gets this in
     if Map_has (Session.clients self) nodeID then
       match Map_get (Session.clients self) nodeID with
       | Some client => ws_send client (JObject rest)
       | None => ret tt
       end
     else
       console_log [nodeID])
    (fun e => console_log []).

(** [handleServerConnection(ws)], lines 39 to 58.  The [hello] carries the
    constant [iceServerUrl] of the module, not the field. *)
Definition handleServerConnection (ws : WebSocket) : M (World Session.t) unit :=
  let! self := gets this in
  match Session.serverWS self with
  | Some _ =>
      console_log [] ;;
      ws_send ws error_message
  | None =>
      console_log [] ;;
      update_this (set_serverWS (Some ws)) ;;
      ws_on_message ws OnServerMessage ;;
      ws_on_close ws OnServerClose ;;
      ws_send ws (hello_message serverNodeID iceServerUrl)
  end.

(** [handleClientMessage(nodeID, data)], lines 100 to 112.  The warning
    prints the declared [nodeID] inside the [try]; [?.] skips the call when
    no coordinator is attached. *)
Definition handleClientMessage (nodeID : Z) (d : data) : M (World Session.t) unit :=
  console_log [Some (JNumber nodeID)] ;;
  try_catch
    (let! msg := JSON_parse d in
     let! declared := lift (get_nodeID msg) in
     (if declared is Some _
      then console_log [Some (JNumber nodeID); declared]
      else ret tt) ;;
     let! msg := lift (assign_nodeID msg nodeID) in
     let! self := gets this in
     match Session.serverWS self with
     | Some server => ws_send server msg
     | None => ret tt
     end)
    (fun e => console_log [Some (JNumber nodeID)]).

(** [handleClientConnection(ws)], lines 74 to 98.  [this.serverWS.send]
    reads the slot again. *)
Definition handleClientConnection (ws : WebSocket) : M (World Session.t) unit :=
  let! self := gets this in
  match Session.serverWS self with
  | None =>
      console_log [] ;;
      ws_send ws error_message
  | Some _ =>
      let nodeID := Session.nextNodeID self in
      update_this (fun s => set_clients (<[nodeID := ws]> (Session.clients s)) s) ;;
      update_this (fun s => set_nextNodeID (Session.nextNodeID s + 1) s) ;;
      console_log [Some (JNumber nodeID)] ;;
      ws_send ws (hello_message nodeID (Session.iceServerUrl self)) ;;
      (let! self := gets this in
       match Session.serverWS self with
       | Some server => ws_send server (clientConnected_message nodeID)
       | None => throw TypeError
       end) ;;
      ws_on_message ws (OnClientMessage nodeID) ;;
      ws_on_close ws (OnClientClose nodeID)
  end.

(** The message listeners: the bound [handleServerMessage] (line 50), and
    [(data) => this.handleClientMessage(nodeID, data.toString())]
    (line 93). *)
Definition call_message (d : data) (l : MessageListener) : M (World Session.t) unit :=
  match l with
  | OnServerMessage => handleServerMessage d
  | OnClientMessage nodeID => handleClientMessage nodeID d
  end.

(** The close listeners, lines 51 to 54 and 94 to 97. *)
Definition call_close (l : CloseListener) : M (World Session.t) unit :=
  match l with
  | OnServerClose =>
      console_log [] ;;
      update_this (set_serverWS None)
  | OnClientClose nodeID =>
      update_this (fun s => set_clients (delete nodeID (Session.clients s)) s) ;;
      console_log [Some (JNumber nodeID)]
  end.

(** [start()] has bound the two connection handlers; a connection
    emits to the listeners registered on it. *)
Definition dispatch (ev : event) : M (World Session.t) unit :=
  match ev with
  | ServerConnection ws => handleServerConnection ws
  | ClientConnection ws => handleClientConnection ws
  | MessageEvent ws d =>
      let! w := get in
      emit (call_message d) (default [] (on_message w !! ws))
  | CloseEvent ws =>
      let! w := get in
      emit call_close (default [] (on_close w !! ws))
  end.

(** The events of a run, one after the other; an exception that leaves
    a handler ends the process. *)
Fixpoint run (evs : list event) : M (World Session.t) unit :=
  match evs with
  | [] => ret tt
  | ev :: evs' => dispatch ev ;; run evs'
  end.

(** [const session = new Session(iceServerUrl); session.start();] *)
Definition session : World Session.t :=
  mkWorld (constructor iceServerUrl) ∅ ∅ [].
End Program.

End TS.

(** ** [src/app.js] *)

Module JS.

Module Session.
Record t : Type := mk {
  serverWS : option WebSocket;
  clients : gmap Z WebSocket;
  nextNodeID : Z
}.
End Session.

Definition set_serverWS (v : option WebSocket) (s : Session.t) : Session.t :=
  Session.mk v (Session.clients s) (Session.nextNodeID s).
Definition set_clients (v : gmap Z WebSocket) (s : Session.t) : Session.t :=
  Session.mk (Session.serverWS s) v (Session.nextNodeID s).
Definition set_nextNodeID (v : Z) (s : Session.t) : Session.t :=
  Session.mk (Session.serverWS s) (Session.clients s) v.

(** [const iceServerUrl = "stun:stun.l.google.com:19302";] *)
Definition iceServerUrl : string := "stun:stun.l.google.com:19302".

(** [constructor()]: the arguments of [new Session(httpServer, ...)] are
    not read. *)
Definition constructor : Session.t :=
  Session.mk None ∅ (serverNodeID + 1).

(** [handleServerMessage(data)], lines 52 to 64: as in [src/app.ts], but
    [.send] on an [undefined] entry would throw. *)
Definition handleServerMessage (d : data) : M (World Session.t) unit :=
  console_log [] ;;
  try_catch
    (let! v := JSON_parse d in
     let! (nodeID, rest) := lift (destructure v) in
     let! self := gets this in
     if Map_has (Session.clients self) nodeID then
       match Map_get (Session.clients self) nodeID with
       | Some client => ws_send client (JObject rest)
       | None => throw TypeError
       end
     else
       console_log [nodeID])
    (fun e => console_log []).

(** [handleServerConnection(ws)], lines 31 to 50. *)
Definition handleServerConnection (ws : WebSocket) : M (World Session.t) unit :=
  let! self := gets this in
  match Session.serverWS self with
  | Some _ =>
      console_log [] ;;
      ws_send ws error_message
  | None =>
      console_log [] ;;
      update_this (set_serverWS (Some ws)) ;;
      ws_on_message ws OnServerMessage ;;
      ws_on_close ws OnServerClose ;;
      ws_send ws (hello_message serverNodeID iceServerUrl)
  end.

(** [handleClientMessage(nodeID, data)], lines 92 to 104: with no
    coordinator attached, [this.serverWS.send] throws a [TypeError] inside
    the [try]. *)
Definition handleClientMessage (nodeID : Z) (d : data) : M (World Session.t) unit :=
  console_log [Some (JNumber nodeID)] ;;
  try_catch
    (let! msg := JSON_parse d in
     let! declared := lift (get_nodeID msg) in
     (if declared is Some _
      then console_log [Some (JNumber nodeID); declared]
      else ret tt) ;;
     let! msg := lift (assign_nodeID msg nodeID) in
     let! self := gets this in
     match Session.serverWS self with
     | Some server => ws_send server msg
     | None => throw TypeError
     end)
    (fun e => console_log [Some (JNumber nodeID)]).

(** [handleClientConnection(ws)], lines 66 to 90: the [hello] carries the
    constant of the module. *)
Definition handleClientConnection (ws : WebSocket) : M (World Session.t) unit :=
  let! self := gets this in
  match Session.serverWS self with
  | None =>
      console_log [] ;;
      ws_send ws error_message
  | Some _ =>
      let nodeID := Session.nextNodeID self in
      update_this (fun s => set_clients (<[nodeID := ws]> (Session.clients s)) s) ;;
      update_this (fun s => set_nextNodeID (Session.nextNodeID s + 1) s) ;;
      console_log [Some (JNumber nodeID)] ;;
      ws_send ws (hello_message nodeID iceServerUrl) ;;
      (let! self := gets this in
       match Session.serverWS self with
       | Some server => ws_send server (clientConnected_message nodeID)
       | None => throw TypeError
       end) ;;
      ws_on_message ws (OnClientMessage nodeID) ;;
      ws_on_close ws (OnClientClose nodeID)
  end.

(** The message listeners, lines 42 and 85. *)
Definition call_message (d : data) (l : MessageListener) : M (World Session.t) unit :=
  match l with
  | OnServerMessage => handleServerMessage d
  | OnClientMessage nodeID => handleClientMessage nodeID d
  end.

(** The close listeners, lines 43 to 46 and 86 to 89. *)
Definition call_close (l : CloseListener) : M (World Session.t) unit :=
  match l with
  | OnServerClose =>
      console_log [] ;;
      update_this (set_serverWS None)
  | OnClientClose nodeID =>
      update_this (fun s => set_clients (delete nodeID (Session.clients s)) s) ;;
      console_log [Some (JNumber nodeID)]
  end.

(** As in [src/app.ts]. *)
Definition dispatch (ev : event) : M (World Session.t) unit :=
  match ev with
  | ServerConnection ws => handleServerConnection ws
  | ClientConnection ws => handleClientConnection ws
  | MessageEvent ws d =>
      let! w := get in
      emit (call_message d) (default [] (on_message w !! ws))
  | CloseEvent ws =>
      let! w := get in
      emit call_close (default [] (on_close w !! ws))
  end.

Fixpoint run (evs : list event) : M (World Session.t) unit :=
  match evs with
  | [] => ret tt
  | ev :: evs' => dispatch ev ;; run evs'
  end.

(** [const session = new Session(httpServer, pathForServer, pathForClient);
    session.start();] *)
Definition session : World Session.t :=
  mkWorld constructor ∅ ∅ [].

End JS.

(** ** The program around the session: [start] and the upgrade handler *)

(** The listeners of 'connection' on a pool: the two bound methods that
    [start] registers. *)
Inductive ConnectionListener : Type :=
| HandleServerConnection
| HandleClientConnection.

(** An upgrade request: the URL it asks for, and what [handleUpgrade] of
    the library makes of its handshake, a new [WebSocket] handed to the
    callback or a refusal, after which the callback is not called. *)
Record Request : Type := mkRequest {
  req_url : string;
  handshake : option WebSocket
}.

(** The world of the session together with the 'connection' listeners of
    [session.wssForServer] and [session.wssForClient]. *)
Record Program (Session : Type) : Type := mkProgram {
  world : World Session;
  wssForServer : list ConnectionListener;
  wssForClient : list ConnectionListener
}.
Arguments mkProgram {Session}.
Arguments world {Session}.
Arguments wssForServer {Session}.
Arguments wssForClient {Session}.

(** A statement of the session, run inside the program. *)
Definition in_world {S A} (m : M (World S) A) : M (Program S) A :=
  fun p =>
    match m (world p) with
    | (r, w') => (r, mkProgram w' (wssForServer p) (wssForClient p))
    end.

(** [pool.emit('connection', ws, req)]: the listeners in the order of their
    registration. *)
Fixpoint emit_connection {St} (call : ConnectionListener -> M St unit)
    (ls : list ConnectionListener) : M St unit :=
  match ls with
  | [] => ret tt
  | l :: ls' => call l ;; emit_connection call ls'
  end.

(** What reaches the program: an upgrade request of the HTTP server, and
    the messages and closes of the connections. *)
Inductive input : Type :=
| Upgrade (req : Request)
| Message (ws : WebSocket) (d : data)
| Close (ws : WebSocket).

Module TSMain.
Section Config.
(** [config["iceServerUrl"]], [config["pathForServer"]] and
    [config["pathForClient"]] of [config.yml]. *)
Variables (iceServerUrl pathForServer pathForClient : string).

(** [start()], lines 31 to 37. *)
Definition start : M (Program TS.Session.t) unit :=
  modify (fun p => mkProgram (world p) (wssForServer p ++ [HandleServerConnection])
                             (wssForClient p)) ;;
  modify (fun p => mkProgram (world p) (wssForServer p)
                             (wssForClient p ++ [HandleClientConnection])).

Definition call_connection (ws : WebSocket) (l : ConnectionListener)
  : M (Program TS.Session.t) unit :=
  match l with
  | HandleServerConnection => in_world (TS.handleServerConnection iceServerUrl ws)
  | HandleClientConnection => in_world (TS.handleClientConnection ws)
  end.

(** The listener of 'upgrade', lines 130 to 146: the pool is chosen by
    comparing [req.url] with ["/" + pathForServer], then with
    ["/" + pathForClient]; a request for another URL is left alone. *)
Definition upgrade (req : Request) : M (Program TS.Session.t) unit :=
  if decide (req_url req = String.append "/" pathForServer) then
    match handshake req with
    | Some ws =>
        let! p := get in
        emit_connection (call_connection ws) (wssForServer p)
    | None => ret tt
    end
  else if decide (req_url req = String.append "/" pathForClient) then
    match handshake req with
    | Some ws =>
        let! p := get in
        emit_connection (call_connection ws) (wssForClient p)
    | None => ret tt
    end
  else ret tt.

Definition handle (i : input) : M (Program TS.Session.t) unit :=
  match i with
  | Upgrade req => upgrade req
  | Message ws d => in_world (TS.dispatch iceServerUrl (MessageEvent ws d))
  | Close ws => in_world (TS.dispatch iceServerUrl (CloseEvent ws))
  end.

Fixpoint serve (inputs : list input) : M (Program TS.Session.t) unit :=
  match inputs with
  | [] => ret tt
  | i :: inputs' => handle i ;; serve inputs'
  end.

(** [new Session(iceServerUrl)], line 127: the pools have no listener
    yet. *)
Definition created : Program TS.Session.t :=
  mkProgram (TS.session iceServerUrl) [] [].

(** The program once [session.start()], line 128, has run. *)
Definition main : Program TS.Session.t := snd (start created).
End Config.
End TSMain.

Module JSMain.

(** [const pathForServer = '/server'; const pathForClient = '/client';] *)
Definition pathForServer : string := "/server".
Definition pathForClient : string := "/client".

(** [start()], lines 23 to 29. *)
Definition start : M (Program JS.Session.t) unit :=
  modify (fun p => mkProgram (world p) (wssForServer p ++ [HandleServerConnection])
                             (wssForClient p)) ;;
  modify (fun p => mkProgram (world p) (wssForServer p)
                             (wssForClient p ++ [HandleClientConnection])).

Definition call_connection (ws : WebSocket) (l : ConnectionListener)
  : M (Program JS.Session.t) unit :=
  match l with
  | HandleServerConnection => in_world (JS.handleServerConnection ws)
  | HandleClientConnection => in_world (JS.handleClientConnection ws)
  end.

(** The listener of 'upgrade', lines 117 to 133: [req.url] is compared with
    the two constants as they are. *)
Definition upgrade (req : Request) : M (Program JS.Session.t) unit :=
  if decide (req_url req = pathForServer) then
    match handshake req with
    | Some ws =>
        let! p := get in
        emit_connection (call_connection ws) (wssForServer p)
    | None => ret tt
    end
  else if decide (req_url req = pathForClient) then
    match handshake req with
    | Some ws =>
        let! p := get in
        emit_connection (call_connection ws) (wssForClient p)
    | None => ret tt
    end
  else ret tt.

Definition handle (i : input) : M (Program JS.Session.t) unit :=
  match i with
  | Upgrade req => upgrade req
  | Message ws d => in_world (JS.dispatch (MessageEvent ws d))
  | Close ws => in_world (JS.dispatch (CloseEvent ws))
  end.

Fixpoint serve (inputs : list input) : M (Program JS.Session.t) unit :=
  match inputs with
  | [] => ret tt
  | i :: inputs' => handle i ;; serve inputs'
  end.

Definition created : Program JS.Session.t := mkProgram JS.session [] [].

Definition main : Program JS.Session.t := snd (start created).

End JSMain.

(** The program with the world [w] and the listeners that one [start]
    leaves on the pools. *)
Definition started {S} (w : World S) : Program S :=
  mkProgram w [HandleServerConnection] [HandleClientConnection].

(** The session event, if any, that an input amounts to once [start] has
    run: which admission an upgrade request leads to. *)
Definition route (server_url client_url : string) (i : input) : option event :=
  match i with
  | Upgrade req =>
      match handshake req with
      | Some ws =>
          if decide (req_url req = server_url) then Some (ServerConnection ws)
          else if decide (req_url req = client_url) then Some (ClientConnection ws)
          else None
      | None => None
      end
  | Message ws d => Some (MessageEvent ws d)
  | Close ws => Some (CloseEvent ws)
  end.

(** ** Observations on a run *)

(** The world a statement leaves behind, and how it ended. *)
Definition after {St A} (m : M St A) (w : St) : St := snd (m w).
Definition outcome {St A} (m : M St A) (w : St) : completion A := fst (m w).

(** The messages sent between two worlds of one run. *)
Definition emitted {S1 S2} (w : World S1) (w' : World S2) : list (WebSocket * json) :=
  drop (length (sent w)) (sent w').

Definition message_type (m : json) : option string :=
  match m with
  | JObject props =>
      match props !! "type" with
      | Some (JString s) => Some s
      | _ => None
      end
  | _ => None
  end.

Definition message_nodeID (m : json) : jsvalue :=
  match m with
  | JObject props => props !! "nodeID"
  | _ => None
  end.




(** The world [w] after the messages [out] were sent and nothing else
    changed. *)
Definition delivered {S} (w : World S) (out : list (WebSocket * json)) : World S :=
  mkWorld (this w) (on_message w) (on_close w) (sent w ++ out).

(** The table after [ws.on(..., l)]: [l] comes last among the listeners of
    [ws]. *)
Definition listening {L} (table : gmap WebSocket (list L)) (ws : WebSocket) (l : L)
  : gmap WebSocket (list L) :=
  <[ws := default [] (table !! ws) ++ [l]]> table.

(** The identifier a [hello] sent to [to] carries. *)
Definition hello_nodeID (to : WebSocket) (p : WebSocket * json) : option Z :=
  if decide (p.1 = to ∧ message_type p.2 = Some "hello") then
    match message_nodeID p.2 with
    | Some (JNumber n) => Some n
    | _ => None
    end
  else None.

(** The identifier that the step from [w] to [w'] on [ev] assigned: the one
    the new participant was greeted with. *)
Definition assigned {S} (w w' : World S) (ev : event) : option Z :=
  match ev with
  | ClientConnection ws => head (omap (hello_nodeID ws) (emitted w w'))
  | _ => None
  end.

(** The identifiers assigned along a run of [src/app.ts], oldest first. *)
Fixpoint assigned_ids (url : string) (evs : list event) (w : World TS.Session.t) : list Z :=
  match evs with
  | [] => []
  | ev :: evs' =>
      let w' := after (TS.dispatch url ev) w in
      from_option (fun n => [n]) [] (assigned w w' ev) ++ assigned_ids url evs' w'
  end.

(** What [src/app.js] keeps of a world of [src/app.ts]: everything but the
    field [iceServerUrl], which its class does not have. *)
Definition erase_session (s : TS.Session.t) : JS.Session.t :=
  JS.Session.mk (TS.Session.serverWS s) (TS.Session.clients s) (TS.Session.nextNodeID s).

Definition erase (w : World TS.Session.t) : World JS.Session.t :=
  mkWorld (erase_session (this w)) (on_message w) (on_close w) (sent w).

(** How a participant's message reaches the coordinator, if it does. *)
Definition forwarded (server : option WebSocket) (m : json) : list (WebSocket * json) :=
  match server with
  | Some ws => [(ws, m)]
  | None => []
  end.

(** What a run of close listeners may change: the coordinator slot, and
    registry entries that go away. *)
Record closes (w w' : World TS.Session.t) : Prop := {
  closes_url : TS.Session.iceServerUrl (this w') = TS.Session.iceServerUrl (this w);
  closes_clients : TS.Session.clients (this w') ⊆ TS.Session.clients (this w);
  closes_next : TS.Session.nextNodeID (this w') = TS.Session.nextNodeID (this w);
  closes_on_message : on_message w' = on_message w;
  closes_on_close : on_close w' = on_close w;
  closes_sent : sent w' = sent w
}.

(** Every registered identifier lies strictly between the server's and
    the counter. *)
Definition registry_below (w : World TS.Session.t) : Prop :=
  serverNodeID < TS.Session.nextNodeID (this w) /\
  forall k c, TS.Session.clients (this w) !! k = Some c ->
              serverNodeID < k < TS.Session.nextNodeID (this w).

(** A world of [src/app.js] seen as one of [src/app.ts] constructed with
    the URL that [src/app.js] has built in. *)
Definition embed (w : World JS.Session.t) : World TS.Session.t :=
  mkWorld (TS.Session.mk JS.iceServerUrl (JS.Session.serverWS (this w))
             (JS.Session.clients (this w)) (JS.Session.nextNodeID (this w)))
          (on_message w) (on_close w) (sent w).

(** [m_js] does on the erased world what [m_ts] does on the world: it ends
    the same way and leaves the erased result. *)
Definition simulates {A} (m_ts : M (World TS.Session.t) A) (m_js : M (World JS.Session.t) A)
    (wt : World TS.Session.t) : Prop :=
  m_js (erase wt) = (outcome m_ts wt, erase (after m_ts wt)).


(** A value of [iceServerUrl] in [config.yml]. *)
Definition example_url : string := "stun:example.org:3478".

(** A coordinator on connection 1 and one participant on connection 2,
    which was given the identifier 1. *)
Definition one_participant_ts : World TS.Session.t :=
  after (TS.run example_url [ServerConnection 1%nat; ClientConnection 2%nat])
        (TS.session example_url).

Definition one_participant_js : World JS.Session.t :=
  after (JS.run [ServerConnection 1%nat; ClientConnection 2%nat]) JS.session.

(** A coordinator on connection 1 and the participant [n] on connection 2,
    as states of the two sessions. *)
Definition registered_ts (n : Z) : World TS.Session.t :=
  mkWorld (TS.Session.mk example_url (Some 1%nat) {[ n := 2%nat ]} (n + 1)) ∅ ∅ [].

Definition registered_js (n : Z) : World JS.Session.t :=
  mkWorld (JS.Session.mk (Some 1%nat) {[ n := 2%nat ]} (n + 1)) ∅ ∅ [].

(** ** Invariants of the listener tables *)

(** The message and the close listeners of a connection. *)
Definition message_listeners {S} (w : World S) (ws : WebSocket) : list MessageListener :=
  default [] (on_message w !! ws).

Definition close_listeners {S} (w : World S) (ws : WebSocket) : list CloseListener :=
  default [] (on_close w !! ws).

(** Whoever sits in the registry or in the coordinator slot has its own
    listeners on its connection. *)
Definition wired (w : World TS.Session.t) : Prop :=
  (forall k ws, TS.Session.clients (this w) !! k = Some ws ->
     OnClientMessage k ∈ message_listeners w ws /\ OnClientClose k ∈ close_listeners w ws) /\
  (forall c, TS.Session.serverWS (this w) = Some c ->
     OnServerMessage ∈ message_listeners w c /\ OnServerClose ∈ close_listeners w c).

(** The listeners of participants carry identifiers already given out, and
    the message listener of an identifier sits on one connection only. *)
Definition listeners_below (w : World TS.Session.t) : Prop :=
  (forall ws k, OnClientMessage k ∈ message_listeners w ws ->
     serverNodeID < k < TS.Session.nextNodeID (this w)) /\
  (forall ws1 ws2 k, OnClientMessage k ∈ message_listeners w ws1 ->
     OnClientMessage k ∈ message_listeners w ws2 -> ws1 = ws2) /\
  (forall ws k, OnClientMessage k ∈ message_listeners w ws ->
     (ws, hello_message k (TS.Session.iceServerUrl (this w))) ∈ sent w).

#[global] Instance MessageListener_eq_dec : EqDecision MessageListener.
Proof. solve_decision. Defined.

#[global] Instance CloseListener_eq_dec : EqDecision CloseListener.
Proof. solve_decision. Defined.

(** What one close listener, and a list of them in order, make of the
    session object; [TS_emit_close_eq] shows that the listeners do this and
    nothing else. *)
Definition close_step (s : TS.Session.t) (l : CloseListener) : TS.Session.t :=
  match l with
  | OnServerClose => TS.set_serverWS None s
  | OnClientClose k => TS.set_clients (delete k (TS.Session.clients s)) s
  end.

Definition closed_by (s : TS.Session.t) (ls : list CloseListener) : TS.Session.t :=
  foldl close_step s ls.

(** The events of one connection after its admission. *)
Definition event_of (ws : WebSocket) (ev : event) : bool :=
  match ev with
  | MessageEvent ws' _ | CloseEvent ws' => bool_decide (ws' = ws)
  | ServerConnection _ | ClientConnection _ => false
  end.

(** What a message listener of [src/app.ts] sends on the text [d], read off
    the session object [s]; [TS_call_message_out] shows that the listener
    does this and nothing else. *)
Definition relay_out (s : TS.Session.t) (d : data) (l : MessageListener)
  : list (WebSocket * json) :=
  match l, d with
  | OnServerMessage, JSONText (JObject props) =>
      match Map_get (TS.Session.clients s) (props !! "nodeID") with
      | Some client => [(client, written (JObject (delete "nodeID" props)))]
      | None => []
      end
  | OnClientMessage k, JSONText (JArray elems) =>
      forwarded (TS.Session.serverWS s) (written (JArray elems))
  | OnClientMessage k, JSONText (JObject props) =>
      if from_option ToString_throws false (props !! "nodeID") then []
      else forwarded (TS.Session.serverWS s)
             (written (JObject (<["nodeID" := JNumber k]> props)))
  | _, _ => []
  end.

(** * Proofs *)

Ltac js_unfold :=
  unfold after, outcome, bind, ret, throw, try_catch, get, gets, modify, lift,
    update_this, ws_send, ws_on_message, ws_on_close, console_log, JSON_parse,
    delivered, listening in *.

Ltac js_run := js_unfold; simpl; rewrite <- ?app_assoc, ?app_nil_r; simpl.

Lemma delivered_nil {S} (w : World S) : delivered w [] = w.
Proof. destruct w. unfold delivered. simpl. by rewrite app_nil_r. Qed.

Lemma emitted_delivered {S} (w : World S) out : emitted w (delivered w out) = out.
Proof. unfold emitted, delivered. simpl. apply drop_app_length. Qed.

(** ** What each handler of [src/app.ts] does *)

Section TS_handlers.
Variable url : string.
Implicit Types (w : World TS.Session.t) (ws : WebSocket).

Lemma TS_handleServerConnection_attached w ws c :
  TS.Session.serverWS (this w) = Some c ->
  TS.handleServerConnection url ws w = (Normal tt, delivered w [(ws, error_message)]).
Proof.
  destruct w as [[u s cl n] om oc st]; simpl; intros ->.
  unfold TS.handleServerConnection. by js_run.
Qed.

Lemma TS_handleServerConnection_free w ws :
  TS.Session.serverWS (this w) = None ->
  TS.handleServerConnection url ws w =
    (Normal tt,
     mkWorld (TS.set_serverWS (Some ws) (this w))
             (listening (on_message w) ws OnServerMessage)
             (listening (on_close w) ws OnServerClose)
             (sent w ++ [(ws, hello_message serverNodeID url)])).
Proof.
  destruct w as [[u s cl n] om oc st]; simpl; intros ->.
  unfold TS.handleServerConnection. by js_run.
Qed.

Lemma TS_handleClientConnection_rejected w ws :
  TS.Session.serverWS (this w) = None ->
  TS.handleClientConnection ws w = (Normal tt, delivered w [(ws, error_message)]).
Proof.
  destruct w as [[u s cl n] om oc st]; simpl; intros ->.
  unfold TS.handleClientConnection. by js_run.
Qed.

Lemma TS_handleClientConnection_admitted w ws c :
  TS.Session.serverWS (this w) = Some c ->
  TS.handleClientConnection ws w =
    (Normal tt,
     let n := TS.Session.nextNodeID (this w) in
     mkWorld (TS.set_nextNodeID (n + 1)
                (TS.set_clients (<[n := ws]> (TS.Session.clients (this w))) (this w)))
             (listening (on_message w) ws (OnClientMessage n))
             (listening (on_close w) ws (OnClientClose n))
             (sent w ++ [(ws, hello_message n (TS.Session.iceServerUrl (this w)));
                         (c, clientConnected_message n)])).
Proof.
  destruct w as [[u s cl n] om oc st]; simpl; intros ->.
  unfold TS.handleClientConnection. by js_run.
Qed.

Lemma TS_handleServerMessage_eq w d :
  TS.handleServerMessage d w =
    (Normal tt,
     match d with
     | JSONText (JObject props) =>
         match Map_get (TS.Session.clients (this w)) (props !! "nodeID") with
         | Some client => delivered w [(client, written (JObject (delete "nodeID" props)))]
         | None => w
         end
     | _ => w
     end).
Proof.
  destruct w as [[u s cl n] om oc st].
  unfold TS.handleServerMessage, destructure, Map_has.
  destruct d as [t|[| | | | |props| |]]; js_run; try reflexivity.
  destruct (Map_get cl (props !! "nodeID")) as [c|] eqn:E; simpl.
  - reflexivity.
  - by destruct (from_option ToString_throws false (props !! "nodeID") || false).
Qed.

Lemma TS_handleClientMessage_eq w nodeID d :
  TS.handleClientMessage nodeID d w =
    (Normal tt,
     match d with
     | JSONText (JArray elems) =>
         delivered w (forwarded (TS.Session.serverWS (this w)) (written (JArray elems)))
     | JSONText (JObject props) =>
         if from_option ToString_throws false (props !! "nodeID") then w
         else delivered w (forwarded (TS.Session.serverWS (this w))
                             (written (JObject (<["nodeID" := JNumber nodeID]> props))))
     | _ => w
     end).
Proof.
  destruct w as [[u s cl n] om oc st].
  unfold TS.handleClientMessage, forwarded.
  destruct d as [t|[| | | | |props| |]]; js_run; try reflexivity.
  - destruct s; js_run; reflexivity.
  - destruct (props !! "nodeID") as [v|]; simpl.
    + rewrite orb_false_r. destruct (ToString_throws v); simpl; [reflexivity|].
      destruct s; js_run; reflexivity.
    + destruct s; js_run; reflexivity.
Qed.
End TS_handlers.

(** ** What each handler of [src/app.js] does *)

Section JS_handlers.
Implicit Types (w : World JS.Session.t) (ws : WebSocket).

Lemma JS_handleServerConnection_attached w ws c :
  JS.Session.serverWS (this w) = Some c ->
  JS.handleServerConnection ws w = (Normal tt, delivered w [(ws, error_message)]).
Proof.
  destruct w as [[s cl n] om oc st]; simpl; intros ->.
  unfold JS.handleServerConnection. by js_run.
Qed.

Lemma JS_handleServerConnection_free w ws :
  JS.Session.serverWS (this w) = None ->
  JS.handleServerConnection ws w =
    (Normal tt,
     mkWorld (JS.set_serverWS (Some ws) (this w))
             (listening (on_message w) ws OnServerMessage)
             (listening (on_close w) ws OnServerClose)
             (sent w ++ [(ws, hello_message serverNodeID JS.iceServerUrl)])).
Proof.
  destruct w as [[s cl n] om oc st]; simpl; intros ->.
  unfold JS.handleServerConnection. by js_run.
Qed.

Lemma JS_handleClientConnection_rejected w ws :
  JS.Session.serverWS (this w) = None ->
  JS.handleClientConnection ws w = (Normal tt, delivered w [(ws, error_message)]).
Proof.
  destruct w as [[s cl n] om oc st]; simpl; intros ->.
  unfold JS.handleClientConnection. by js_run.
Qed.

Lemma JS_handleClientConnection_admitted w ws c :
  JS.Session.serverWS (this w) = Some c ->
  JS.handleClientConnection ws w =
    (Normal tt,
     let n := JS.Session.nextNodeID (this w) in
     mkWorld (JS.set_nextNodeID (n + 1)
                (JS.set_clients (<[n := ws]> (JS.Session.clients (this w))) (this w)))
             (listening (on_message w) ws (OnClientMessage n))
             (listening (on_close w) ws (OnClientClose n))
             (sent w ++ [(ws, hello_message n JS.iceServerUrl);
                         (c, clientConnected_message n)])).
Proof.
  destruct w as [[s cl n] om oc st]; simpl; intros ->.
  unfold JS.handleClientConnection. by js_run.
Qed.

Lemma JS_handleServerMessage_eq w d :
  JS.handleServerMessage d w =
    (Normal tt,
     match d with
     | JSONText (JObject props) =>
         match Map_get (JS.Session.clients (this w)) (props !! "nodeID") with
         | Some client => delivered w [(client, written (JObject (delete "nodeID" props)))]
         | None => w
         end
     | _ => w
     end).
Proof.
  destruct w as [[s cl n] om oc st].
  unfold JS.handleServerMessage, destructure, Map_has.
  destruct d as [t|[| | | | |props| |]]; js_run; try reflexivity.
  destruct (Map_get cl (props !! "nodeID")) as [c|] eqn:E; simpl.
  - reflexivity.
  - by destruct (from_option ToString_throws false (props !! "nodeID") || false).
Qed.

Lemma JS_handleClientMessage_eq w nodeID d :
  JS.handleClientMessage nodeID d w =
    (Normal tt,
     match d with
     | JSONText (JArray elems) =>
         delivered w (forwarded (JS.Session.serverWS (this w)) (written (JArray elems)))
     | JSONText (JObject props) =>
         if from_option ToString_throws false (props !! "nodeID") then w
         else delivered w (forwarded (JS.Session.serverWS (this w))
                             (written (JObject (<["nodeID" := JNumber nodeID]> props))))
     | _ => w
     end).
Proof.
  destruct w as [[s cl n] om oc st].
  unfold JS.handleClientMessage, forwarded.
  destruct d as [t|[| | | | |props| |]]; js_run; try reflexivity.
  - destruct s; js_run; reflexivity.
  - destruct (props !! "nodeID") as [v|]; simpl.
    + rewrite orb_false_r. destruct (ToString_throws v); simpl; [reflexivity|].
      destruct s; js_run; reflexivity.
    + destruct s; js_run; reflexivity.
Qed.
End JS_handlers.

(** ** Relays change the outbox only; closes never touch it *)

Lemma delivered_delivered {S} (w : World S) out1 out2 :
  delivered (delivered w out1) out2 = delivered w (out1 ++ out2).
Proof. unfold delivered. simpl. by rewrite app_assoc. Qed.

Lemma emit_frame {S L} (call : L -> M (World S) unit) :
  (forall l w, exists out, call l w = (Normal tt, delivered w out)) ->
  forall ls w, exists out, emit call ls w = (Normal tt, delivered w out).
Proof.
  intros Hcall ls. induction ls as [|l ls IH]; intros w; simpl.
  - exists []. by rewrite delivered_nil.
  - destruct (Hcall l w) as [out1 H1]. destruct (IH (delivered w out1)) as [out2 H2].
    exists (out1 ++ out2). unfold bind. by rewrite H1, H2, delivered_delivered.
Qed.

Lemma TS_call_message_frame d l (w : World TS.Session.t) :
  exists out, TS.call_message d l w = (Normal tt, delivered w out).
Proof.
  destruct l as [|k]; simpl.
  - rewrite TS_handleServerMessage_eq.
    destruct d as [t|[| | | | |props| |]]; try (exists []; by rewrite delivered_nil).
    destruct (Map_get _ _); eauto. exists []; by rewrite delivered_nil.
  - rewrite TS_handleClientMessage_eq.
    destruct d as [t|[| | | | |props| |]]; try (exists []; by rewrite delivered_nil); eauto.
    destruct (from_option _ _ _); eauto. exists []; by rewrite delivered_nil.
Qed.

Lemma TS_call_close_eq l (w : World TS.Session.t) :
  TS.call_close l w =
    (Normal tt,
     mkWorld (match l with
              | OnServerClose => TS.set_serverWS None (this w)
              | OnClientClose k =>
                  TS.set_clients (delete k (TS.Session.clients (this w))) (this w)
              end)
             (on_message w) (on_close w) (sent w)).
Proof. destruct w as [[u s cl n] om oc st], l; unfold TS.call_close; by js_run. Qed.

Lemma JS_call_close_eq l (w : World JS.Session.t) :
  JS.call_close l w =
    (Normal tt,
     mkWorld (match l with
              | OnServerClose => JS.set_serverWS None (this w)
              | OnClientClose k =>
                  JS.set_clients (delete k (JS.Session.clients (this w))) (this w)
              end)
             (on_message w) (on_close w) (sent w)).
Proof. destruct w as [[s cl n] om oc st], l; unfold JS.call_close; by js_run. Qed.

Lemma TS_emit_close ls (w : World TS.Session.t) :
  exists w', emit TS.call_close ls w = (Normal tt, w') /\ closes w w'.
Proof.
  revert w. induction ls as [|l ls IH]; intros w; simpl.
  - exists w. split; [done|]. by split.
  - unfold bind. rewrite TS_call_close_eq.
    match goal with |- context [emit _ ls ?w1] => destruct (IH w1) as (w' & -> & [H1 H2 H3 H4 H5 H6]) end.
    exists w'. split; [done|]. simpl in *.
    split; try done.
    + rewrite H1. by destruct l.
    + etrans; [exact H2|]. destruct l; simpl; [done|]. apply delete_subseteq.
    + rewrite H3. by destruct l.
Qed.

(** ** Steps and runs of [src/app.ts] *)

Section TS_runs.
Variable url : string.
Implicit Types (w : World TS.Session.t) (ws : WebSocket) (ev : event).

Lemma TS_dispatch_normal ev w : outcome (TS.dispatch url ev) w = Normal tt.
Proof.
  unfold outcome. destruct ev as [ws|ws|ws d|ws]; simpl.
  - destruct (TS.Session.serverWS (this w)) as [c|] eqn:E.
    + by rewrite (TS_handleServerConnection_attached _ _ _ c).
    + by rewrite TS_handleServerConnection_free.
  - destruct (TS.Session.serverWS (this w)) as [c|] eqn:E.
    + by rewrite (TS_handleClientConnection_admitted _ _ c).
    + by rewrite TS_handleClientConnection_rejected.
  - unfold bind, get.
    destruct (emit_frame _ (TS_call_message_frame d) (default [] (on_message w !! ws)) w)
      as [out ->]. done.
  - unfold bind, get.
    destruct (TS_emit_close (default [] (on_close w !! ws)) w) as (w' & -> & _). done.
Qed.

Lemma TS_dispatch_eq ev w :
  TS.dispatch url ev w = (Normal tt, after (TS.dispatch url ev) w).
Proof.
  pose proof (TS_dispatch_normal ev w) as H. unfold outcome, after in *.
  destruct (TS.dispatch url ev w) as [r w']. simpl in *. by subst.
Qed.

Lemma TS_run_cons ev evs w :
  TS.run url (ev :: evs) w = TS.run url evs (after (TS.dispatch url ev) w).
Proof. simpl. unfold bind. by rewrite TS_dispatch_eq. Qed.


Lemma TS_after_run_cons ev evs w :
  after (TS.run url (ev :: evs)) w = after (TS.run url evs) (after (TS.dispatch url ev) w).
Proof. unfold after at 1 2. by rewrite TS_run_cons. Qed.

Lemma TS_after_run_app evs1 evs2 w :
  after (TS.run url (evs1 ++ evs2)) w = after (TS.run url evs2) (after (TS.run url evs1) w).
Proof.
  revert w. induction evs1 as [|ev evs1 IH]; intros w; [done|].
  rewrite <- app_comm_cons, !TS_after_run_cons. apply IH.
Qed.

(** A message event relays; it changes the outbox only. *)
Lemma TS_message_event_frame ws d w :
  exists out, after (TS.dispatch url (MessageEvent ws d)) w = delivered w out.
Proof.
  unfold after. simpl. unfold bind, get.
  destruct (emit_frame _ (TS_call_message_frame d) (default [] (on_message w !! ws)) w)
    as [out ->]. eauto.
Qed.

Lemma TS_close_event_closes ws w : closes w (after (TS.dispatch url (CloseEvent ws)) w).
Proof.
  unfold after. simpl. unfold bind, get.
  destruct (TS_emit_close (default [] (on_close w !! ws)) w) as (w' & -> & H). done.
Qed.

(** The counter only grows, and the constructor's URL stays. *)
Lemma TS_dispatch_next_mono ev w :
  TS.Session.nextNodeID (this w) <= TS.Session.nextNodeID (this (after (TS.dispatch url ev) w)).
Proof.
  destruct ev as [ws|ws|ws d|ws].
  - unfold after. simpl. destruct (TS.Session.serverWS (this w)) as [c|] eqn:E.
    + by rewrite (TS_handleServerConnection_attached _ _ _ c).
    + by rewrite TS_handleServerConnection_free.
  - unfold after. simpl. destruct (TS.Session.serverWS (this w)) as [c|] eqn:E.
    + rewrite (TS_handleClientConnection_admitted _ _ c) by done. simpl. lia.
    + by rewrite TS_handleClientConnection_rejected.
  - destruct (TS_message_event_frame ws d w) as [out ->]. done.
  - destruct (TS_close_event_closes ws w) as [_ _ -> _ _ _]. done.
Qed.

Lemma TS_dispatch_url ev w :
  TS.Session.iceServerUrl (this (after (TS.dispatch url ev) w)) =
  TS.Session.iceServerUrl (this w).
Proof.
  destruct ev as [ws|ws|ws d|ws].
  - unfold after. simpl. destruct (TS.Session.serverWS (this w)) as [c|] eqn:E.
    + by rewrite (TS_handleServerConnection_attached _ _ _ c).
    + by rewrite TS_handleServerConnection_free.
  - unfold after. simpl. destruct (TS.Session.serverWS (this w)) as [c|] eqn:E.
    + by rewrite (TS_handleClientConnection_admitted _ _ c).
    + by rewrite TS_handleClientConnection_rejected.
  - destruct (TS_message_event_frame ws d w) as [out ->]. done.
  - by destruct (TS_close_event_closes ws w) as [-> _ _ _ _ _].
Qed.

Lemma TS_run_url evs w :
  TS.Session.iceServerUrl (this (after (TS.run url evs) w)) =
  TS.Session.iceServerUrl (this w).
Proof.
  revert w. induction evs as [|ev evs IH]; intros w; [done|].
  by rewrite TS_after_run_cons, IH, TS_dispatch_url.
Qed.

Lemma registry_below_session : registry_below (TS.session url).
Proof. split; [done|]. intros k c. simpl. by rewrite lookup_empty. Qed.

Lemma registry_below_dispatch ev w :
  registry_below w -> registry_below (after (TS.dispatch url ev) w).
Proof.
  intros [Hn Hk]. destruct ev as [ws|ws|ws d|ws].
  - unfold after. simpl. destruct (TS.Session.serverWS (this w)) as [c|] eqn:E.
    + rewrite (TS_handleServerConnection_attached _ _ _ c) by done. by split.
    + rewrite TS_handleServerConnection_free by done. by split.
  - unfold after. simpl. destruct (TS.Session.serverWS (this w)) as [c|] eqn:E.
    + rewrite (TS_handleClientConnection_admitted _ _ c) by done. simpl.
      split; simpl; [lia|]. intros k c'. rewrite lookup_insert.
      case_decide; [intros _; lia|]. intros H'. specialize (Hk _ _ H'). lia.
    + rewrite TS_handleClientConnection_rejected by done. by split.
  - destruct (TS_message_event_frame ws d w) as [out ->]. by split.
  - destruct (TS_close_event_closes ws w) as [_ Hsub Hnext _ _ _].
    split; rewrite Hnext; [done|]. intros k c H'. apply (Hk k c).
    eapply lookup_weaken; eauto.
Qed.

Lemma registry_below_run evs w :
  registry_below w -> registry_below (after (TS.run url evs) w).
Proof.
  revert w. induction evs as [|ev evs IH]; intros w H; [done|].
  rewrite TS_after_run_cons. by apply IH, registry_below_dispatch.
Qed.
End TS_runs.

(** ** Assigned identifiers *)

Lemma hello_nodeID_hello ws n u : hello_nodeID ws (ws, hello_message n u) = Some n.
Proof. unfold hello_nodeID. simpl. rewrite decide_True; done. Qed.

Lemma hello_nodeID_error ws : hello_nodeID ws (ws, error_message) = None.
Proof. unfold hello_nodeID. simpl. rewrite decide_False; [done|]. by intros [_ ?]. Qed.

Section Assigned.
Variable url : string.
Implicit Types (w : World TS.Session.t) (ws : WebSocket) (ev : event).

Lemma assigned_admitted w ws c :
  TS.Session.serverWS (this w) = Some c ->
  assigned w (after (TS.handleClientConnection ws) w) (ClientConnection ws) =
    Some (TS.Session.nextNodeID (this w)).
Proof.
  intros E. unfold after. rewrite (TS_handleClientConnection_admitted _ _ c) by done.
  unfold assigned, emitted. simpl. rewrite drop_app_length. simpl.
  by rewrite hello_nodeID_hello.
Qed.

Lemma assigned_rejected w ws :
  TS.Session.serverWS (this w) = None ->
  assigned w (after (TS.handleClientConnection ws) w) (ClientConnection ws) = None.
Proof.
  intros E. unfold after. rewrite TS_handleClientConnection_rejected by done.
  unfold assigned, emitted. simpl. rewrite drop_app_length. simpl.
  by rewrite hello_nodeID_error.
Qed.

Lemma assigned_inv w ev n :
  assigned w (after (TS.dispatch url ev) w) ev = Some n ->
  n = TS.Session.nextNodeID (this w) /\
  TS.Session.nextNodeID (this (after (TS.dispatch url ev) w)) = n + 1.
Proof.
  destruct ev as [ws|ws|ws d|ws]; try discriminate.
  change (after (TS.dispatch url (ClientConnection ws)) w)
    with (after (TS.handleClientConnection ws) w).
  destruct (TS.Session.serverWS (this w)) as [c|] eqn:E.
  - rewrite (assigned_admitted _ _ c) by done. intros [= <-]. split; [done|].
    unfold after. by rewrite (TS_handleClientConnection_admitted _ _ c).
  - by rewrite assigned_rejected.
Qed.

Lemma assigned_ids_from evs w :
  StronglySorted Z.lt (assigned_ids url evs w) /\
  Forall (fun n => TS.Session.nextNodeID (this w) <= n) (assigned_ids url evs w).
Proof.
  revert w. induction evs as [|ev evs IH]; intros w; simpl.
  - split; constructor.
  - destruct (IH (after (TS.dispatch url ev) w)) as [Hs Hf].
    pose proof (TS_dispatch_next_mono url ev w) as Hm.
    destruct (assigned w _ ev) as [n|] eqn:E; simpl.
    + apply assigned_inv in E as [-> E]. split.
      * constructor; [done|]. eapply Forall_impl; [exact Hf|]. simpl. intros. lia.
      * constructor; [lia|]. eapply Forall_impl; [exact Hf|]. simpl. intros. lia.
    + split; [done|]. eapply Forall_impl; [exact Hf|]. simpl. intros. lia.
Qed.

Lemma assigned_ids_before evs w :
  Forall (fun n => n < TS.Session.nextNodeID (this (after (TS.run url evs) w)))
         (assigned_ids url evs w).
Proof.
  revert w. induction evs as [|ev evs IH]; intros w; [constructor|].
  rewrite TS_after_run_cons. cbn [assigned_ids]. apply Forall_app. split; [|apply IH].
  destruct (assigned w _ ev) as [n|] eqn:E; simpl; [|constructor].
  apply assigned_inv in E as [-> E]. constructor; [|constructor].
  assert (TS.Session.nextNodeID (this (after (TS.dispatch url ev) w))
          <= TS.Session.nextNodeID (this (after (TS.run url evs) (after (TS.dispatch url ev) w)))).
  { clear. generalize (after (TS.dispatch url ev) w). induction evs as [|e evs IH]; intros w0.
    - done.
    - rewrite TS_after_run_cons. etrans; [apply (TS_dispatch_next_mono url e)|apply IH]. }
  lia.
Qed.
End Assigned.

Lemma StronglySorted_lt_NoDup (l : list Z) : StronglySorted Z.lt l -> NoDup l.
Proof.
  induction 1 as [|x l Hs IH Hf]; constructor; [|done].
  intros Hin. rewrite Forall_forall in Hf. specialize (Hf _ Hin). lia.
Qed.

(** C2. Along every run of admissions, messages and closes from the
    initial session, the identifiers assigned to participants are strictly
    increasing, none is the server's identifier 0, none is assigned twice,
    and the identifier assigned next is neither one assigned before nor the
    key of an entry of the registry, so that no admission displaces a
    registered participant. *)
Theorem identifiers_unique_and_increasing (url : string) (evs : list event) :
  let ids := assigned_ids url evs (TS.session url) in
  StronglySorted Z.lt ids /\
  Forall (fun n => n <> serverNodeID) ids /\
  NoDup ids /\
  forall ws n,
    let w := after (TS.run url evs) (TS.session url) in
    assigned w (after (TS.dispatch url (ClientConnection ws)) w) (ClientConnection ws) = Some n ->
    (n ∉ ids) /\
    TS.Session.clients (this w) !! n = None /\
    TS.Session.clients (this (after (TS.dispatch url (ClientConnection ws)) w)) !! n = Some ws.
Proof.
  cbv zeta. destruct (assigned_ids_from url evs (TS.session url)) as [Hs Hf].
  split; [done|]. split; [|split].
  - eapply Forall_impl; [exact Hf|]. simpl. unfold serverNodeID. intros. lia.
  - by apply StronglySorted_lt_NoDup.
  - intros ws n Ha.
    pose proof (assigned_inv url _ _ _ Ha) as [-> _].
    pose proof (assigned_ids_before url evs (TS.session url)) as Hb.
    pose proof (registry_below_run url evs _ (registry_below_session url)) as [_ Hk].
    split; [|split].
    + intros Hin. rewrite Forall_forall in Hb. specialize (Hb _ Hin). lia.
    + destruct (TS.Session.clients _ !! _) as [c|] eqn:E; [|done].
      specialize (Hk _ _ E). lia.
    + destruct (TS.Session.serverWS (this (after (TS.run url evs) (TS.session url)))) as [c|] eqn:E.
      * change (after (TS.dispatch url (ClientConnection ws)) ?w)
          with (snd (TS.handleClientConnection ws w)).
        rewrite (TS_handleClientConnection_admitted _ _ c) by done. simpl.
        apply lookup_insert_eq.
      * change (after (TS.dispatch url (ClientConnection ws)) ?w)
          with (after (TS.handleClientConnection ws) w) in Ha.
        by rewrite assigned_rejected in Ha.
Qed.

Lemma identifiers_unique_and_increasing_witness :
  let evs := [ClientConnection 9%nat; ServerConnection 1%nat; ClientConnection 2%nat;
              ClientConnection 3%nat; CloseEvent 2%nat; CloseEvent 1%nat;
              ClientConnection 4%nat; ServerConnection 5%nat; ClientConnection 4%nat] in
  assigned_ids example_url evs (TS.session example_url) = [1; 2; 3] /\
  StronglySorted Z.lt (assigned_ids example_url evs (TS.session example_url)) /\
  NoDup (assigned_ids example_url evs (TS.session example_url)).
Proof.
  intros evs. split; [vm_compute; reflexivity|].
  pose proof (identifiers_unique_and_increasing example_url evs) as (Hs & _ & Hn & _).
  split; [exact Hs|exact Hn].
Defined.

(** ** [src/app.js] against [src/app.ts] *)

Lemma erase_embed (w : World JS.Session.t) : erase (embed w) = w.
Proof. by destruct w as [[s cl n] om oc st]. Qed.

Lemma embed_url (w : World JS.Session.t) :
  TS.Session.iceServerUrl (this (embed w)) = JS.iceServerUrl.
Proof. done. Qed.

Section Simulation.
Implicit Types (wt : World TS.Session.t) (ws : WebSocket).

Lemma sim_handleServerMessage d wt :
  simulates (TS.handleServerMessage d) (JS.handleServerMessage d) wt.
Proof.
  unfold simulates, outcome, after.
  rewrite TS_handleServerMessage_eq, JS_handleServerMessage_eq. simpl.
  destruct d as [t|[| | | | |props| |]]; try done.
  by destruct (Map_get _ _).
Qed.

Lemma sim_handleClientMessage k d wt :
  simulates (TS.handleClientMessage k d) (JS.handleClientMessage k d) wt.
Proof.
  unfold simulates, outcome, after.
  rewrite TS_handleClientMessage_eq, JS_handleClientMessage_eq. simpl.
  destruct d as [t|[| | | | |props| |]]; try done.
  by destruct (from_option _ _ _).
Qed.

Lemma sim_call_close l wt : simulates (TS.call_close l) (JS.call_close l) wt.
Proof.
  unfold simulates, outcome, after. rewrite TS_call_close_eq, JS_call_close_eq.
  by destruct l.
Qed.

Lemma sim_handleServerConnection ws wt :
  simulates (TS.handleServerConnection JS.iceServerUrl ws) (JS.handleServerConnection ws) wt.
Proof.
  unfold simulates, outcome, after.
  destruct (TS.Session.serverWS (this wt)) as [c|] eqn:E.
  - rewrite (TS_handleServerConnection_attached _ _ _ c),
      (JS_handleServerConnection_attached _ _ c); done.
  - rewrite TS_handleServerConnection_free, JS_handleServerConnection_free; done.
Qed.

Lemma sim_handleClientConnection ws wt :
  TS.Session.iceServerUrl (this wt) = JS.iceServerUrl ->
  simulates (TS.handleClientConnection ws) (JS.handleClientConnection ws) wt.
Proof.
  intros Hu. unfold simulates, outcome, after.
  destruct (TS.Session.serverWS (this wt)) as [c|] eqn:E.
  - rewrite (TS_handleClientConnection_admitted _ _ c),
      (JS_handleClientConnection_admitted _ _ c); try done.
    simpl. by rewrite Hu.
  - rewrite TS_handleClientConnection_rejected, JS_handleClientConnection_rejected; done.
Qed.

Lemma sim_emit {L} (call_ts : L -> M (World TS.Session.t) unit)
    (call_js : L -> M (World JS.Session.t) unit) :
  (forall l wt, simulates (call_ts l) (call_js l) wt) ->
  forall ls wt, simulates (emit call_ts ls) (emit call_js ls) wt.
Proof.
  intros Hcall ls. induction ls as [|l ls IH]; intros wt; [done|].
  unfold simulates, outcome, after in *. simpl. unfold bind.
  rewrite Hcall. destruct (call_ts l wt) as [[[]|e] wt1]; simpl; [apply IH|done].
Qed.

Lemma sim_dispatch ev wt :
  TS.Session.iceServerUrl (this wt) = JS.iceServerUrl ->
  simulates (TS.dispatch JS.iceServerUrl ev) (JS.dispatch ev) wt.
Proof.
  intros Hu. destruct ev as [ws|ws|ws d|ws]; simpl.
  - apply sim_handleServerConnection.
  - by apply sim_handleClientConnection.
  - apply (sim_emit (TS.call_message d) (JS.call_message d)).
    intros [|k] w; [apply sim_handleServerMessage|apply sim_handleClientMessage].
  - apply (sim_emit TS.call_close JS.call_close). apply sim_call_close.
Qed.

Lemma sim_run evs wt :
  TS.Session.iceServerUrl (this wt) = JS.iceServerUrl ->
  simulates (TS.run JS.iceServerUrl evs) (JS.run evs) wt.
Proof.
  revert wt. induction evs as [|ev evs IH]; intros wt Hu; [done|].
  unfold simulates. rewrite TS_after_run_cons. unfold outcome. rewrite TS_run_cons.
  simpl. unfold bind. rewrite (sim_dispatch ev wt Hu), TS_dispatch_normal.
  apply IH. by rewrite TS_dispatch_url.
Qed.

Lemma JS_dispatch_normal ev (w : World JS.Session.t) : outcome (JS.dispatch ev) w = Normal tt.
Proof.
  unfold outcome. rewrite <- (erase_embed w) at 1.
  rewrite (sim_dispatch ev (embed w) (embed_url w)). simpl. apply TS_dispatch_normal.
Qed.

End Simulation.

(** ** The counter stays in the exact range *)

Lemma TS_dispatch_next_step url ev (w : World TS.Session.t) :
  TS.Session.nextNodeID (this (after (TS.dispatch url ev) w))
  <= TS.Session.nextNodeID (this w) + 1.
Proof.
  destruct ev as [ws|ws|ws d|ws].
  - unfold after. simpl. destruct (TS.Session.serverWS (this w)) as [c|] eqn:E.
    + rewrite (TS_handleServerConnection_attached _ _ _ c) by done. simpl. lia.
    + rewrite TS_handleServerConnection_free by done. simpl. lia.
  - unfold after. simpl. destruct (TS.Session.serverWS (this w)) as [c|] eqn:E.
    + rewrite (TS_handleClientConnection_admitted _ _ c) by done. simpl. lia.
    + rewrite TS_handleClientConnection_rejected by done. simpl. lia.
  - destruct (TS_message_event_frame url ws d w) as [out ->]. simpl. lia.
  - destruct (TS_close_event_closes url ws w) as [_ _ -> _ _ _]. lia.
Qed.

(** After [length evs] events the counter is at most [1 + length evs]: a
    run of fewer than [2^53 - 1] events keeps it where [nextNodeID++] is
    exact. *)
Lemma nextNodeID_bound url evs :
  TS.Session.nextNodeID (this (after (TS.run url evs) (TS.session url)))
  <= 1 + Z.of_nat (length evs).
Proof.
  assert (forall w, TS.Session.nextNodeID (this (after (TS.run url evs) w))
                    <= TS.Session.nextNodeID (this w) + Z.of_nat (length evs)) as H.
  { induction evs as [|ev evs IH]; intros w.
    - simpl. unfold after. simpl. lia.
    - rewrite TS_after_run_cons. specialize (IH (after (TS.dispatch url ev) w)).
      pose proof (TS_dispatch_next_step url ev w). cbn [length]. lia. }
  specialize (H (TS.session url)). simpl in H. unfold serverNodeID in H. lia.
Qed.

(** * Properties of the relay protocol *)

(** ** Admission *)

(** C1. While a coordinator is attached, [handleServerConnection] on a
    further connection completes having sent that connection one [error]
    message and nothing else: the session object (the coordinator slot with
    the original connection, the registry, the counter) and the listeners of
    every connection, the rejected one included, are as before.  Both
    implementations. *)
Theorem second_coordinator_rejected (url : string)
    (wt : World TS.Session.t) (wj : World JS.Session.t) (ws ct cj : WebSocket) :
  TS.Session.serverWS (this wt) = Some ct ->
  JS.Session.serverWS (this wj) = Some cj ->
  TS.handleServerConnection url ws wt = (Normal tt, delivered wt [(ws, error_message)]) /\
  JS.handleServerConnection ws wj = (Normal tt, delivered wj [(ws, error_message)]) /\
  message_type error_message = Some "error".
Proof.
  intros Ht Hj. split; [|split].
  - by apply (TS_handleServerConnection_attached url wt ws ct).
  - by apply (JS_handleServerConnection_attached wj ws cj).
  - done.
Qed.

Lemma second_coordinator_rejected_witness :
  TS.Session.serverWS (this one_participant_ts) = Some 1%nat /\
  JS.Session.serverWS (this one_participant_js) = Some 1%nat /\
  TS.handleServerConnection example_url 3%nat one_participant_ts =
    (Normal tt, delivered one_participant_ts [(3%nat, error_message)]) /\
  JS.handleServerConnection 3%nat one_participant_js =
    (Normal tt, delivered one_participant_js [(3%nat, error_message)]) /\
  message_type error_message = Some "error".
Proof.
  split; [reflexivity|]. split; [reflexivity|].
  apply (second_coordinator_rejected example_url one_participant_ts one_participant_js
           3%nat 1%nat 1%nat); reflexivity.
Defined.

(** C5. While no coordinator is attached, [handleClientConnection]
    completes having sent the connection one [error] message, which is not
    a [hello], and nothing else: no registry entry, the counter as before,
    no listener, no message to any other connection.  Both
    implementations. *)
Theorem participant_rejected_without_coordinator
    (wt : World TS.Session.t) (wj : World JS.Session.t) (ws : WebSocket) :
  TS.Session.serverWS (this wt) = None ->
  JS.Session.serverWS (this wj) = None ->
  TS.handleClientConnection ws wt = (Normal tt, delivered wt [(ws, error_message)]) /\
  JS.handleClientConnection ws wj = (Normal tt, delivered wj [(ws, error_message)]) /\
  message_type error_message = Some "error".
Proof.
  intros Ht Hj. split; [|split].
  - by apply TS_handleClientConnection_rejected.
  - by apply JS_handleClientConnection_rejected.
  - done.
Qed.

Lemma participant_rejected_without_coordinator_witness :
  TS.Session.serverWS (this (TS.session example_url)) = None /\
  JS.Session.serverWS (this JS.session) = None /\
  TS.handleClientConnection 2%nat (TS.session example_url) =
    (Normal tt, delivered (TS.session example_url) [(2%nat, error_message)]) /\
  JS.handleClientConnection 2%nat JS.session =
    (Normal tt, delivered JS.session [(2%nat, error_message)]) /\
  message_type error_message = Some "error".
Proof.
  split; [reflexivity|]. split; [reflexivity|].
  apply (participant_rejected_without_coordinator (TS.session example_url) JS.session 2%nat);
    reflexivity.
Defined.

(** The fields of the three notifications. *)
Lemma hello_message_fields n u :
  message_type (hello_message n u) = Some "hello" /\
  message_nodeID (hello_message n u) = Some (JNumber n) /\
  (exists props, hello_message n u = JObject props /\
                 props !! "iceServerUrl" = Some (JString u)).
Proof. split; [done|]. split; [done|]. eexists. split; [done|]. done. Qed.

Lemma clientConnected_message_fields n :
  message_type (clientConnected_message n) = Some "clientConnected" /\
  message_nodeID (clientConnected_message n) = Some (JNumber n).
Proof. done. Qed.

(** C7, as the code has it.  On a participant admission with coordinator
    [c] attached, the session registers the connection under the counter's
    value [n], sends the participant a [hello] with [nodeID: n] and the
    signaling URL, and then sends [c] a message of type [clientConnected]
    with [nodeID: n]; nothing else is sent.  Both implementations. *)
Theorem participant_admission_notifications
    (wt : World TS.Session.t) (wj : World JS.Session.t) (ws ct cj : WebSocket) :
  TS.Session.serverWS (this wt) = Some ct ->
  JS.Session.serverWS (this wj) = Some cj ->
  let nt := TS.Session.nextNodeID (this wt) in
  let nj := JS.Session.nextNodeID (this wj) in
  let wt' := after (TS.handleClientConnection ws) wt in
  let wj' := after (JS.handleClientConnection ws) wj in
  (outcome (TS.handleClientConnection ws) wt = Normal tt /\
   emitted wt wt' = [(ws, hello_message nt (TS.Session.iceServerUrl (this wt)));
                     (ct, clientConnected_message nt)] /\
   TS.Session.clients (this wt') !! nt = Some ws) /\
  (outcome (JS.handleClientConnection ws) wj = Normal tt /\
   emitted wj wj' = [(ws, hello_message nj JS.iceServerUrl);
                     (cj, clientConnected_message nj)] /\
   JS.Session.clients (this wj') !! nj = Some ws) /\
  (forall n u,
     message_type (hello_message n u) = Some "hello" /\
     message_nodeID (hello_message n u) = Some (JNumber n) /\
     message_type (clientConnected_message n) = Some "clientConnected" /\
     message_nodeID (clientConnected_message n) = Some (JNumber n)).
Proof.
  intros Ht Hj. cbv zeta. unfold outcome, after, emitted.
  rewrite (TS_handleClientConnection_admitted wt ws ct Ht),
    (JS_handleClientConnection_admitted wj ws cj Hj). simpl.
  rewrite !drop_app_length, !lookup_insert_eq. done.
Qed.

Lemma participant_admission_notifications_witness :
  emitted one_participant_ts (after (TS.handleClientConnection 3%nat) one_participant_ts) =
    [(3%nat, hello_message 2 example_url); (1%nat, clientConnected_message 2)] /\
  emitted one_participant_js (after (JS.handleClientConnection 3%nat) one_participant_js) =
    [(3%nat, hello_message 2 JS.iceServerUrl); (1%nat, clientConnected_message 2)].
Proof.
  pose proof (participant_admission_notifications one_participant_ts one_participant_js
                3%nat 1%nat 1%nat eq_refl eq_refl) as H.
  cbv zeta in H. destruct H as [(_ & Ht & _) [(_ & Hj & _) _]].
  split; [exact Ht|exact Hj].
Defined.

(** C7, as the spec words it, fails: the notification that the coordinator
    gets when participant 2 is admitted is not of type
    [participantConnected], and no message of that type is sent. *)
Lemma no_participantConnected_notification :
  ~ (exists m,
       (1%nat, m) ∈ emitted one_participant_ts
                      (after (TS.dispatch example_url (ClientConnection 3%nat)) one_participant_ts)
       /\ message_type m = Some "participantConnected").
Proof.
  intros (m & Hin & Hty).
  assert (emitted one_participant_ts
            (after (TS.dispatch example_url (ClientConnection 3%nat)) one_participant_ts)
          = [(3%nat, hello_message 2 example_url); (1%nat, clientConnected_message 2)]) as E
    by (vm_compute; reflexivity).
  rewrite E in Hin. clear E.
  apply elem_of_cons in Hin as [Hin|Hin]; [discriminate|].
  apply list_elem_of_singleton in Hin. injection Hin as ->. discriminate.
Qed.

(** C8. In every state that the program's session reaches with the
    coordinator slot empty, [handleServerConnection] completes, attaches
    the connection and sends it one message and no other: a [hello] with
    [nodeID: 0] and the URL of the configuration, which is the URL the
    session was constructed with and still holds. *)
Theorem coordinator_hello (url : string) (evs : list event) (ws : WebSocket) :
  let w := after (TS.run url evs) (TS.session url) in
  TS.Session.serverWS (this w) = None ->
  let w' := after (TS.handleServerConnection url ws) w in
  outcome (TS.handleServerConnection url ws) w = Normal tt /\
  emitted w w' = [(ws, hello_message serverNodeID url)] /\
  TS.Session.serverWS (this w') = Some ws /\
  TS.Session.iceServerUrl (this w) = url /\
  TS.Session.iceServerUrl (this (TS.session url)) = url /\
  message_type (hello_message serverNodeID url) = Some "hello" /\
  message_nodeID (hello_message serverNodeID url) = Some (JNumber 0) /\
  (exists props, hello_message serverNodeID url = JObject props /\
                 props !! "iceServerUrl" = Some (JString url)).
Proof.
  intros w Hfree w'. subst w'. unfold outcome, after, emitted.
  rewrite (TS_handleServerConnection_free url w ws Hfree). simpl.
  rewrite drop_app_length. repeat split; try done.
  - subst w. by rewrite TS_run_url.
  - by eexists.
Qed.

Lemma coordinator_hello_witness :
  let w := after (TS.run example_url [ServerConnection 1%nat; CloseEvent 1%nat])
                 (TS.session example_url) in
  TS.Session.serverWS (this w) = None /\
  emitted w (after (TS.handleServerConnection example_url 4%nat) w) =
    [(4%nat, hello_message serverNodeID example_url)].
Proof.
  split; [reflexivity|].
  apply (coordinator_hello example_url [ServerConnection 1%nat; CloseEvent 1%nat] 4%nat).
  reflexivity.
Defined.

(** ** Relay *)

(** How [JSON.parse] reads some integer numerals: exactly up to [2^53],
    rounded to the nearest double beyond, and as an infinity beyond the
    range of doubles. *)
Example JSON_number_readings :
  JSON_number 0 = JNumber 0 /\ JSON_number 7 = JNumber 7 /\
  JSON_number (-5) = JNumber (-5) /\
  JSON_number 9007199254740992 = JNumber 9007199254740992 /\
  JSON_number 9007199254740993 = JNumber 9007199254740992 /\
  JSON_number 9007199254740995 = JNumber 9007199254740996 /\
  JSON_number (2 ^ 1024 - 1) = JInfinity false /\
  JSON_number (10 ^ 400) = JInfinity false /\
  JSON_number (- 10 ^ 400) = JInfinity true.
Proof. repeat split; vm_compute; reflexivity. Qed.




(** ** Disconnects *)



(** ** No exception leaves a handler *)



(** ** The two implementations *)

(** C10. Configured with the URL that [src/app.js] has built in, and
    started in the same state (the [src/app.ts] session holding that URL),
    the two implementations end every sequence of connection, message and
    close events the same way, in the same state, with the same listeners
    and the same messages sent to the same connections in the same order;
    their initial states are the same. *)
Theorem implementations_equivalent (url : string) (evs : list event)
    (wt : World TS.Session.t) :
  url = JS.iceServerUrl ->
  TS.Session.iceServerUrl (this wt) = url ->
  JS.run evs (erase wt) = (outcome (TS.run url evs) wt, erase (after (TS.run url evs) wt)) /\
  sent (after (JS.run evs) (erase wt)) = sent (after (TS.run url evs) wt) /\
  erase (TS.session url) = JS.session.
Proof.
  intros -> Hu. pose proof (sim_run evs wt Hu) as H. unfold simulates in H.
  split; [exact H|]. split; [|done].
  unfold after at 1. by rewrite H.
Qed.

Lemma implementations_equivalent_witness :
  let evs := [ServerConnection 1%nat; ClientConnection 2%nat; ServerConnection 3%nat;
              MessageEvent 2%nat (JSONText (JObject {[ "nodeID" := JNumber 99; "x" := JNumber 1 ]}));
              CloseEvent 1%nat;
              MessageEvent 2%nat (JSONText (JObject {[ "x" := JNumber 1 ]}));
              CloseEvent 2%nat] in
  sent (after (JS.run evs) JS.session) =
    sent (after (TS.run JS.iceServerUrl evs) (TS.session JS.iceServerUrl)).
Proof.
  intros evs.
  apply (implementations_equivalent JS.iceServerUrl evs (TS.session JS.iceServerUrl));
    reflexivity.
Defined.

(** ** Messages of participants *)

(** A participant's message that is an object whose declared [nodeID], if
    any, converts to a string is forwarded with [nodeID] set to the
    sender's identifier, and two such objects that differ in [nodeID] only
    are forwarded as the same object. *)
Lemma participant_object_stamped (w : World TS.Session.t) (c : WebSocket) (P : Z)
    (props1 props2 : gmap string json) :
  TS.Session.serverWS (this w) = Some c ->
  from_option ToString_throws false (props1 !! "nodeID") = false ->
  from_option ToString_throws false (props2 !! "nodeID") = false ->
  delete "nodeID" props1 = delete "nodeID" props2 ->
  TS.handleClientMessage P (JSONText (JObject props1)) w =
    (Normal tt, delivered w [(c, written (JObject (<["nodeID" := JNumber P]> props1)))]) /\
  TS.handleClientMessage P (JSONText (JObject props2)) w =
    TS.handleClientMessage P (JSONText (JObject props1)) w /\
  message_nodeID (written (JObject (<["nodeID" := JNumber P]> props1))) = Some (JNumber P).
Proof.
  intros Hs H1 H2 Hd. rewrite !TS_handleClientMessage_eq, H1, H2, Hs. simpl.
  split; [done|]. split; [|by rewrite lookup_fmap, lookup_insert_eq].
  by rewrite <- (insert_delete_eq props1), <- (insert_delete_eq props2), Hd.
Qed.

(** C3 fails on the code at two inputs.  Participant 1, on connection 2,
    sends the array [[7]]: the coordinator is sent [[7]], which has no
    [nodeID].  It sends [{"nodeID": {"toString": null}}]: the warning that
    prints the declared [nodeID] throws inside the [try], and nothing is
    forwarded, while [{}], which differs in [nodeID] only, is forwarded as
    [{"nodeID": 1}].  Both implementations. *)
Theorem participant_relay_misses_nodeID :
  let array := JArray [JNumber 7] in
  let hidden : gmap string json := {[ "nodeID" := JObject {[ "toString" := JNull ]} ]} in
  let ev v := MessageEvent 2%nat (JSONText v) in
  let sent_ts v :=
    emitted one_participant_ts (after (TS.dispatch example_url (ev v)) one_participant_ts) in
  let sent_js v :=
    emitted one_participant_js (after (JS.dispatch (ev v)) one_participant_js) in
  TS.Session.clients (this one_participant_ts) !! 1 = Some 2%nat /\
  on_message one_participant_ts !! 2%nat = Some [OnClientMessage 1] /\
  (sent_ts array = [(1%nat, array)] /\ sent_js array = [(1%nat, array)] /\
   message_nodeID array = None) /\
  (delete "nodeID" hidden = delete "nodeID" (∅ : gmap string json) /\
   sent_ts (JObject hidden) = [] /\
   sent_js (JObject hidden) = [] /\
   sent_ts (JObject ∅) = [(1%nat, JObject {[ "nodeID" := JNumber 1 ]})] /\
   sent_js (JObject ∅) = [(1%nat, JObject {[ "nodeID" := JNumber 1 ]})]).
Proof. cbv zeta. repeat split; vm_compute; reflexivity. Qed.


(** ** The examples of the relay in both directions *)

(** The coordinator sends [{nodeID: 7, foo: "bar"}]: participant 7 is sent
    [{foo: "bar"}]; when only participant 3 is registered, nothing is
    sent. *)
Example relay_to_participant_7 :
  let m : gmap string json := {[ "nodeID" := JNumber 7; "foo" := JString "bar" ]} in
  TS.handleServerMessage (JSONText (JObject m)) (registered_ts 7) =
    (Normal tt, delivered (registered_ts 7) [(2%nat, JObject {[ "foo" := JString "bar" ]})]) /\
  JS.handleServerMessage (JSONText (JObject m)) (registered_js 7) =
    (Normal tt, delivered (registered_js 7) [(2%nat, JObject {[ "foo" := JString "bar" ]})]) /\
  TS.handleServerMessage (JSONText (JObject m)) (registered_ts 3) = (Normal tt, registered_ts 3) /\
  JS.handleServerMessage (JSONText (JObject m)) (registered_js 3) = (Normal tt, registered_js 3).
Proof. cbv zeta. repeat split; vm_compute; reflexivity. Qed.

(** Participant 3 sends [{nodeID: 99, x: 1}]: the coordinator is sent
    [{nodeID: 3, x: 1}]. *)
Example relay_from_participant_3 :
  let m : gmap string json := {[ "nodeID" := JNumber 99; "x" := JNumber 1 ]} in
  let m' : gmap string json := {[ "nodeID" := JNumber 3; "x" := JNumber 1 ]} in
  TS.handleClientMessage 3 (JSONText (JObject m)) (registered_ts 3) =
    (Normal tt, delivered (registered_ts 3) [(1%nat, JObject m')]) /\
  JS.handleClientMessage 3 (JSONText (JObject m)) (registered_js 3) =
    (Normal tt, delivered (registered_js 3) [(1%nat, JObject m')]).
Proof. cbv zeta. repeat split; vm_compute; reflexivity. Qed.

(** * Further properties of the session of [src/app.ts] *)

(** ** Identifiers are consecutive *)

Lemma assigned_ids_consecutive_from url evs (w : World TS.Session.t) :
  (forall (i : nat) n, assigned_ids url evs w !! i = Some n ->
     n = TS.Session.nextNodeID (this w) + Z.of_nat i) /\
  TS.Session.nextNodeID (this (after (TS.run url evs) w)) =
    TS.Session.nextNodeID (this w) + Z.of_nat (length (assigned_ids url evs w)).
Proof.
  revert w. induction evs as [|ev evs IH]; intros w.
  - split; [intros i n; simpl; by rewrite lookup_nil|]. unfold after. simpl. lia.
  - rewrite TS_after_run_cons. cbn [assigned_ids].
    destruct (IH (after (TS.dispatch url ev) w)) as [IHi IHn].
    destruct (assigned w _ ev) as [n0|] eqn:E; simpl.
    + apply assigned_inv in E as [-> E]. split.
      * intros [|i] n; simpl; [intros [= <-]; lia|].
        intros H. apply IHi in H. lia.
      * rewrite IHn, E. lia.
    + assert (TS.Session.nextNodeID (this (after (TS.dispatch url ev) w))
              = TS.Session.nextNodeID (this w)) as Hsame.
      { destruct ev as [ws|ws|ws d|ws].
        - unfold after. simpl. destruct (TS.Session.serverWS (this w)) as [c|] eqn:E'.
          + by rewrite (TS_handleServerConnection_attached _ _ _ c).
          + by rewrite TS_handleServerConnection_free.
        - change (after (TS.dispatch url (ClientConnection ws)) w)
            with (after (TS.handleClientConnection ws) w) in *.
          destruct (TS.Session.serverWS (this w)) as [c|] eqn:E'.
          + by rewrite (assigned_admitted _ _ c) in E.
          + unfold after. by rewrite TS_handleClientConnection_rejected.
        - destruct (TS_message_event_frame url ws d w) as [out ->]. done.
        - by destruct (TS_close_event_closes url ws w) as [_ _ -> _ _ _]. }
      rewrite Hsame in *. by split.
Qed.

(** X1. Along every run from the initial session, the i-th participant
    admitted, counting from 0, is given the identifier i + 1, whatever
    closes and rejections lie between, and the counter ends one above the
    number of admissions. *)
Theorem identifiers_are_consecutive (url : string) (evs : list event) :
  let ids := assigned_ids url evs (TS.session url) in
  (forall (i : nat) n, ids !! i = Some n -> n = Z.of_nat i + 1) /\
  TS.Session.nextNodeID (this (after (TS.run url evs) (TS.session url))) =
    Z.of_nat (length ids) + 1.
Proof.
  cbv zeta. destruct (assigned_ids_consecutive_from url evs (TS.session url)) as [Hi Hn].
  split.
  - intros i n H. apply Hi in H. simpl in H. unfold serverNodeID in H. lia.
  - rewrite Hn. simpl. unfold serverNodeID. lia.
Qed.

Lemma identifiers_are_consecutive_witness :
  let evs := [ServerConnection 1%nat; ClientConnection 2%nat; CloseEvent 2%nat;
              ClientConnection 3%nat; CloseEvent 1%nat; ClientConnection 4%nat] in
  assigned_ids example_url evs (TS.session example_url) !! 1%nat = Some 2 /\
  2 = Z.of_nat 1 + 1.
Proof.
  intros evs. split; [vm_compute; reflexivity|].
  apply (proj1 (identifiers_are_consecutive example_url evs) 1%nat 2).
  vm_compute; reflexivity.
Defined.

(** ** What an event can change *)

(** X2. Which event can change what.  No event changes the URL the
    session holds or lowers the counter, and the outbox only grows at its
    end.  A coordinator connection leaves the registry and the counter
    alone; a participant connection leaves the coordinator slot alone; a
    message changes nothing but the outbox; a close sends nothing,
    registers nothing and can only remove registry entries or empty the
    slot. *)
Theorem event_frame (url : string) (w : World TS.Session.t) (ev : event) :
  let w' := after (TS.dispatch url ev) w in
  TS.Session.iceServerUrl (this w') = TS.Session.iceServerUrl (this w) /\
  TS.Session.nextNodeID (this w) <= TS.Session.nextNodeID (this w') /\
  sent w `prefix_of` sent w' /\
  match ev with
  | ServerConnection _ =>
      TS.Session.clients (this w') = TS.Session.clients (this w) /\
      TS.Session.nextNodeID (this w') = TS.Session.nextNodeID (this w)
  | ClientConnection _ =>
      TS.Session.serverWS (this w') = TS.Session.serverWS (this w)
  | MessageEvent _ _ =>
      this w' = this w /\ on_message w' = on_message w /\ on_close w' = on_close w
  | CloseEvent _ =>
      TS.Session.clients (this w') ⊆ TS.Session.clients (this w) /\
      (TS.Session.serverWS (this w') = TS.Session.serverWS (this w) \/
       TS.Session.serverWS (this w') = None) /\
      TS.Session.nextNodeID (this w') = TS.Session.nextNodeID (this w) /\
      on_message w' = on_message w /\ on_close w' = on_close w /\ sent w' = sent w
  end.
Proof.
  cbv zeta. split; [apply TS_dispatch_url|]. split; [apply TS_dispatch_next_mono|].
  destruct ev as [ws|ws|ws d|ws].
  - unfold after. simpl. destruct (TS.Session.serverWS (this w)) as [c|] eqn:E.
    + rewrite (TS_handleServerConnection_attached _ _ _ c) by done. simpl.
      split; [by apply prefix_app_r|done].
    + rewrite TS_handleServerConnection_free by done. simpl.
      split; [by apply prefix_app_r|done].
  - unfold after. simpl. destruct (TS.Session.serverWS (this w)) as [c|] eqn:E.
    + rewrite (TS_handleClientConnection_admitted _ _ c) by done. simpl.
      split; [by apply prefix_app_r|done].
    + rewrite TS_handleClientConnection_rejected by done. simpl.
      split; [by apply prefix_app_r|done].
  - destruct (TS_message_event_frame url ws d w) as [out ->]. simpl.
    split; [by apply prefix_app_r|done].
  - destruct (TS_close_event_closes url ws w) as [_ Hc Hn Hm Hcl Hs].
    rewrite Hs. split; [done|]. repeat split; try done.
    unfold after. simpl. unfold bind, get.
    generalize (default [] (on_close w !! ws)). intros ls. clear.
    revert w. induction ls as [|l ls IH]; intros w; simpl; [by left|].
    unfold bind. rewrite TS_call_close_eq.
    match goal with |- context [emit _ ls ?w1] => destruct (IH w1) as [H|H] end.
    + rewrite H. simpl. destruct l; [by right|by left].
    + by right.
Qed.

(** ** Where relayed messages go, and what they carry *)

Lemma elem_of_concat_map {A B} (f : A -> list B) (l : list A) (x : B) :
  x ∈ concat (map f l) <-> exists a, a ∈ l /\ x ∈ f a.
Proof.
  induction l as [|a l IH]; simpl.
  - split; [by intros ?%elem_of_nil|]. by intros (a & ?%elem_of_nil & _).
  - rewrite elem_of_app, IH. split.
    + intros [H|(b & Hb & H)]; [exists a|exists b]; split; try done;
        [apply list_elem_of_here|by apply list_elem_of_further].
    + intros (b & [->|Hb]%elem_of_cons & H); [by left|right; eauto].
Qed.

Lemma TS_call_message_out d l (w : World TS.Session.t) :
  TS.call_message d l w = (Normal tt, delivered w (relay_out (this w) d l)).
Proof.
  destruct l as [|k]; simpl.
  - rewrite TS_handleServerMessage_eq.
    destruct d as [t|[| | | | |props| |]]; simpl; rewrite ?delivered_nil; try done.
    destruct (Map_get _ _); by rewrite ?delivered_nil.
  - rewrite TS_handleClientMessage_eq.
    destruct d as [t|[| | | | |props| |]]; simpl; rewrite ?delivered_nil; try done.
    destruct (from_option _ _ _); by rewrite ?delivered_nil.
Qed.

Lemma TS_emit_message_out d ls (w : World TS.Session.t) :
  emit (TS.call_message d) ls w =
    (Normal tt, delivered w (concat (map (relay_out (this w) d) ls))).
Proof.
  revert w. induction ls as [|l ls IH]; intros w; simpl.
  - by rewrite delivered_nil.
  - unfold bind. rewrite TS_call_message_out, IH. simpl.
    by rewrite delivered_delivered.
Qed.

Lemma TS_message_event_out url ws d (w : World TS.Session.t) :
  TS.dispatch url (MessageEvent ws d) w =
    (Normal tt, delivered w (concat (map (relay_out (this w) d) (message_listeners w ws)))).
Proof. simpl. unfold bind, get. apply TS_emit_message_out. Qed.

Lemma relay_out_inv s d l p :
  p ∈ relay_out s d l ->
  match l with
  | OnServerMessage =>
      exists props n,
        d = JSONText (JObject props) /\ props !! "nodeID" = Some (JNumber n) /\
        TS.Session.clients s !! n = Some p.1 /\
        p.2 = written (JObject (delete "nodeID" props))
  | OnClientMessage k =>
      TS.Session.serverWS s = Some p.1 /\
      ((exists elems, d = JSONText (JArray elems) /\ p.2 = written (JArray elems)) \/
       (exists props, d = JSONText (JObject props) /\
                      from_option ToString_throws false (props !! "nodeID") = false /\
                      p.2 = written (JObject (<["nodeID" := JNumber k]> props))))
  end.
Proof.
  destruct l as [|k]; simpl.
  - destruct d as [t|[| | | | |props| |]]; try by intros ?%elem_of_nil.
    destruct (props !! "nodeID") as [[| |n| | | | |]|] eqn:Hp; simpl;
      try by intros ?%elem_of_nil.
    destruct (TS.Session.clients s !! n) as [c|] eqn:Hc; [|by intros ?%elem_of_nil].
    intros ->%list_elem_of_singleton. simpl. eauto 10.
  - destruct d as [t|[| | | |elems|props| |]]; try by intros ?%elem_of_nil.
    + destruct (TS.Session.serverWS s) as [c|]; simpl; [|by intros ?%elem_of_nil].
      intros ->%list_elem_of_singleton. simpl. eauto 10.
    + destruct (from_option _ _ _) eqn:Ht; [by intros ?%elem_of_nil|].
      destruct (TS.Session.serverWS s) as [c|]; simpl; [|by intros ?%elem_of_nil].
      intros ->%list_elem_of_singleton. simpl. eauto 10.
Qed.

(** X3. Whatever a connection sends, and whatever listeners it has, each
    message that the session sends in answer goes either to the connection
    in the coordinator slot or to a connection in the registry; what a
    participant's listener sends goes to the coordinator only, so that no
    participant's message reaches another participant. *)
Theorem relay_destinations (url : string) (w : World TS.Session.t)
    (ws : WebSocket) (d : data) (p : WebSocket * json) :
  p ∈ emitted w (after (TS.dispatch url (MessageEvent ws d)) w) ->
  (TS.Session.serverWS (this w) = Some p.1 \/
   exists n, TS.Session.clients (this w) !! n = Some p.1) /\
  ((forall l, l ∈ message_listeners w ws -> l <> OnServerMessage) ->
   TS.Session.serverWS (this w) = Some p.1).
Proof.
  unfold after. rewrite TS_message_event_out. cbn [snd]. rewrite emitted_delivered.
  intros (l & Hl & Hp)%elem_of_concat_map.
  apply relay_out_inv in Hp. destruct l as [|k].
  - destruct Hp as (props & n & _ & _ & Hc & _). split; [eauto|].
    intros Hno. by destruct (Hno _ Hl).
  - destruct Hp as [Hs _]. split; [by left|done].
Qed.

Lemma relay_destinations_witness :
  let d := JSONText (JObject {[ "x" := JNumber 1 ]}) in
  let p := (1%nat, JObject {[ "nodeID" := JNumber 1; "x" := JNumber 1 ]}) in
  p ∈ emitted one_participant_ts
        (after (TS.dispatch example_url (MessageEvent 2%nat d)) one_participant_ts) /\
  TS.Session.serverWS (this one_participant_ts) = Some p.1.
Proof.
  intros d p.
  assert (p ∈ emitted one_participant_ts
                (after (TS.dispatch example_url (MessageEvent 2%nat d)) one_participant_ts))
    as Hin by (vm_compute; apply list_elem_of_here).
  split; [exact Hin|].
  apply (relay_destinations example_url one_participant_ts 2%nat d p Hin).
  intros l Hl. vm_compute in Hl. apply list_elem_of_singleton in Hl. by subst.
Defined.

(** X4. On no input does a participant's listener forward a [nodeID] that
    is not its own: every message that [handleClientMessage] sends for the
    participant [k] either has no [nodeID] or has [nodeID: k]. *)
Theorem forwarded_nodeID_is_the_senders (w : World TS.Session.t) (k : Z) (d : data)
    (p : WebSocket * json) (v : json) :
  p ∈ emitted w (after (TS.handleClientMessage k d) w) ->
  message_nodeID p.2 = Some v ->
  v = JNumber k.
Proof.
  change (TS.handleClientMessage k d) with (TS.call_message d (OnClientMessage k)).
  unfold after. rewrite TS_call_message_out. cbn [snd].
  rewrite emitted_delivered.
  intros Hp%relay_out_inv. destruct Hp as [_ [(elems & _ & ->)|(props & _ & _ & ->)]]; simpl.
  - discriminate.
  - rewrite lookup_fmap, lookup_insert_eq. by intros [= <-].
Qed.

Lemma forwarded_nodeID_is_the_senders_witness :
  let d := JSONText (JObject {[ "nodeID" := JNumber 99; "x" := JNumber 1 ]}) in
  let p := (1%nat, JObject {[ "nodeID" := JNumber 1; "x" := JNumber 1 ]}) in
  p ∈ emitted one_participant_ts (after (TS.handleClientMessage 1 d) one_participant_ts) /\
  JNumber 1 = JNumber 1.
Proof.
  intros d p.
  assert (p ∈ emitted one_participant_ts (after (TS.handleClientMessage 1 d) one_participant_ts))
    as Hin by (vm_compute; apply list_elem_of_here).
  split; [exact Hin|].
  apply (forwarded_nodeID_is_the_senders one_participant_ts 1 d p (JNumber 1) Hin).
  vm_compute. reflexivity.
Defined.







(** X6. A coordinator's message is delivered exactly when it is an object
    whose [nodeID] is a number that is a key of the registry; then one
    message goes out, to that entry.  A [nodeID] of any other type, such as
    the string "1" or [null], addresses nobody. *)
Theorem coordinator_delivery_iff (w : World TS.Session.t) (d : data) :
  let out := emitted w (after (TS.handleServerMessage d) w) in
  (out <> [] <->
   exists props n client,
     d = JSONText (JObject props) /\ props !! "nodeID" = Some (JNumber n) /\
     TS.Session.clients (this w) !! n = Some client) /\
  (forall props n client,
     d = JSONText (JObject props) -> props !! "nodeID" = Some (JNumber n) ->
     TS.Session.clients (this w) !! n = Some client ->
     out = [(client, written (JObject (delete "nodeID" props)))]).
Proof.
  cbv zeta. change (TS.handleServerMessage d) with (TS.call_message d OnServerMessage).
  unfold after. rewrite TS_call_message_out. cbn [snd]. rewrite emitted_delivered.
  split; [split|].
  - intros Hne. destruct (relay_out (this w) d OnServerMessage) as [|p out] eqn:E; [done|].
    assert (p ∈ relay_out (this w) d OnServerMessage) as Hp
      by (rewrite E; apply list_elem_of_here).
    apply relay_out_inv in Hp as (props & n & -> & Hn & Hc & _). eauto 10.
  - intros (props & n & c & -> & Hn & Hc). simpl. by rewrite Hn; simpl; rewrite Hc.
  - intros props n c -> Hn Hc. simpl. by rewrite Hn; simpl; rewrite Hc.
Qed.

Lemma coordinator_delivery_iff_witness :
  let props : gmap string json := {[ "nodeID" := JString "1"; "foo" := JString "bar" ]} in
  ~ (emitted one_participant_ts
       (after (TS.handleServerMessage (JSONText (JObject props))) one_participant_ts) <> []).
Proof.
  intros props H.
  apply (proj1 (coordinator_delivery_iff one_participant_ts (JSONText (JObject props)))) in H.
  destruct H as (props' & n & c & [= <-] & Hn & _). vm_compute in Hn. discriminate.
Defined.

(** ** Listeners in the worlds a run reaches *)

Lemma TS_emit_close_eq ls (w : World TS.Session.t) :
  emit TS.call_close ls w =
    (Normal tt, mkWorld (closed_by (this w) ls) (on_message w) (on_close w) (sent w)).
Proof.
  revert w. induction ls as [|l ls IH]; intros w; simpl.
  - by destruct w.
  - unfold bind. rewrite TS_call_close_eq, IH. simpl. by destruct l.
Qed.

Lemma TS_close_event_eq url ws (w : World TS.Session.t) :
  TS.dispatch url (CloseEvent ws) w =
    (Normal tt, mkWorld (closed_by (this w) (close_listeners w ws))
                        (on_message w) (on_close w) (sent w)).
Proof. simpl. unfold bind, get. apply TS_emit_close_eq. Qed.

Lemma closed_by_clients_in s ls k :
  OnClientClose k ∈ ls -> TS.Session.clients (closed_by s ls) !! k = None.
Proof.
  unfold closed_by. revert s. induction ls as [|l ls IH]; intros s; [by intros ?%elem_of_nil|].
  intros [<-|Hin]%elem_of_cons; [|by apply IH]. simpl.
  assert (forall s', TS.Session.clients s' !! k = None ->
                     TS.Session.clients (foldl close_step s' ls) !! k = None) as Hkeep.
  { clear. induction ls as [|l ls IH]; intros s' H; [done|]. simpl. apply IH.
    destruct l as [|j]; simpl; [done|]. rewrite lookup_delete. by case_decide. }
  apply Hkeep. simpl. apply lookup_delete_eq.
Qed.

Lemma closed_by_clients_sub s ls :
  TS.Session.clients (closed_by s ls) ⊆ TS.Session.clients s.
Proof.
  unfold closed_by. revert s. induction ls as [|l ls IH]; intros s; [done|]. simpl.
  etrans; [apply IH|]. destruct l; simpl; [done|apply delete_subseteq].
Qed.

Lemma closed_by_serverWS s ls :
  TS.Session.serverWS (closed_by s ls) =
    if bool_decide (OnServerClose ∈ ls) then None else TS.Session.serverWS s.
Proof.
  unfold closed_by. revert s. induction ls as [|l ls IH]; intros s.
  - rewrite bool_decide_eq_false_2; [done|by intros ?%elem_of_nil].
  - cbn [foldl]. rewrite IH. destruct l as [|k].
    + rewrite (bool_decide_eq_true_2 (OnServerClose ∈ OnServerClose :: ls))
        by apply list_elem_of_here.
      by case_bool_decide.
    + destruct (bool_decide_reflect (OnServerClose ∈ ls)) as [H|H].
      * rewrite bool_decide_eq_true_2; [done|by apply list_elem_of_further].
      * rewrite bool_decide_eq_false_2; [done|].
        by intros [?|?]%elem_of_cons.
Qed.

Lemma closed_by_rest s ls :
  TS.Session.nextNodeID (closed_by s ls) = TS.Session.nextNodeID s /\
  TS.Session.iceServerUrl (closed_by s ls) = TS.Session.iceServerUrl s.
Proof.
  unfold closed_by. revert s. induction ls as [|l ls IH]; intros s; [done|]. simpl.
  destruct (IH (close_step s l)) as [-> ->]. by destruct l.
Qed.

Lemma listening_lookup {L} (table : gmap WebSocket (list L)) ws (l : L) ws' :
  default [] (listening table ws l !! ws') =
    if decide (ws = ws') then default [] (table !! ws) ++ [l] else default [] (table !! ws').
Proof. unfold listening. rewrite lookup_insert. by case_decide; subst. Qed.

(** The four shapes of a step. *)
Lemma TS_dispatch_cases url ev (w : World TS.Session.t) :
  let w' := after (TS.dispatch url ev) w in
  (exists out, w' = delivered w out) \/
  (exists ws, ev = ServerConnection ws /\ TS.Session.serverWS (this w) = None /\
     w' = mkWorld (TS.set_serverWS (Some ws) (this w))
                  (listening (on_message w) ws OnServerMessage)
                  (listening (on_close w) ws OnServerClose)
                  (sent w ++ [(ws, hello_message serverNodeID url)])) \/
  (exists ws c, ev = ClientConnection ws /\ TS.Session.serverWS (this w) = Some c /\
     let n := TS.Session.nextNodeID (this w) in
     w' = mkWorld (TS.set_nextNodeID (n + 1)
                     (TS.set_clients (<[n := ws]> (TS.Session.clients (this w))) (this w)))
                  (listening (on_message w) ws (OnClientMessage n))
                  (listening (on_close w) ws (OnClientClose n))
                  (sent w ++ [(ws, hello_message n (TS.Session.iceServerUrl (this w)));
                              (c, clientConnected_message n)])) \/
  (exists ws, ev = CloseEvent ws /\
     w' = mkWorld (closed_by (this w) (close_listeners w ws))
                  (on_message w) (on_close w) (sent w)).
Proof.
  cbv zeta. unfold after. destruct ev as [ws|ws|ws d|ws].
  - cbn [TS.dispatch]. destruct (TS.Session.serverWS (this w)) as [c|] eqn:E.
    + left. rewrite (TS_handleServerConnection_attached _ _ _ c) by done. eauto.
    + right; left. rewrite TS_handleServerConnection_free by done. eauto.
  - cbn [TS.dispatch]. destruct (TS.Session.serverWS (this w)) as [c|] eqn:E.
    + right; right; left. rewrite (TS_handleClientConnection_admitted _ _ c) by done.
      eauto 10.
    + left. rewrite TS_handleClientConnection_rejected by done. eauto.
  - left. rewrite TS_message_event_out. eauto.
  - right; right; right. rewrite TS_close_event_eq. eauto.
Qed.

Lemma wired_session url : wired (TS.session url).
Proof.
  split.
  - intros k ws. simpl. by rewrite lookup_empty.
  - intros c. simpl. discriminate.
Qed.

Lemma wired_dispatch url ev (w : World TS.Session.t) :
  wired w -> wired (after (TS.dispatch url ev) w).
Proof.
  intros [Hk Hc].
  destruct (TS_dispatch_cases url ev w)
    as [[out ->]|[(ws & -> & Hs & ->)|[(ws & c & -> & Hs & ->)|(ws & -> & ->)]]].
  - by split.
  - split.
    + intros k ws'. simpl. intros [Hm Hcl]%Hk.
      unfold message_listeners, close_listeners in *. simpl.
      rewrite !listening_lookup. split; case_decide; subst; try done;
        apply elem_of_app; by left.
    + intros c. simpl. intros [= <-].
      unfold message_listeners, close_listeners. simpl.
      rewrite !listening_lookup, !decide_True by done.
      split; apply elem_of_app; right; apply list_elem_of_here.
  - cbv zeta. split.
    + intros k ws'. simpl. rewrite lookup_insert.
      unfold message_listeners, close_listeners in *. simpl.
      rewrite !listening_lookup. case_decide as Hkn.
      * intros [= <-]. rewrite !decide_True by done. subst k.
        split; apply elem_of_app; right; apply list_elem_of_here.
      * intros [Hm Hcl]%Hk. split; case_decide; subst; try done;
          apply elem_of_app; by left.
    + intros c'. simpl. intros [Hm Hcl]%Hc.
      unfold message_listeners, close_listeners in *. simpl.
      rewrite !listening_lookup. split; case_decide; subst; try done;
        apply elem_of_app; by left.
  - split.
    + intros k ws'. simpl. intros H. apply (Hk k ws').
      eapply lookup_weaken; [exact H|apply closed_by_clients_sub].
    + intros c. simpl. rewrite closed_by_serverWS. case_bool_decide; [done|]. apply Hc.
Qed.

Lemma wired_run url evs (w : World TS.Session.t) :
  wired w -> wired (after (TS.run url evs) w).
Proof.
  revert w. induction evs as [|ev evs IH]; intros w H; [done|].
  rewrite TS_after_run_cons. by apply IH, wired_dispatch.
Qed.

(** X7. In every world that a run from the initial session reaches, each
    connection in the registry has, for its identifier, the message
    listener and the close listener that its admission registered, and the
    connection in the coordinator slot has the coordinator's two
    listeners. *)
Theorem registered_connections_are_wired (url : string) (evs : list event) :
  let w := after (TS.run url evs) (TS.session url) in
  (forall k ws, TS.Session.clients (this w) !! k = Some ws ->
     OnClientMessage k ∈ message_listeners w ws /\ OnClientClose k ∈ close_listeners w ws) /\
  (forall c, TS.Session.serverWS (this w) = Some c ->
     OnServerMessage ∈ message_listeners w c /\ OnServerClose ∈ close_listeners w c).
Proof. apply (wired_run url evs), wired_session. Qed.

(** X8. In every world that a run from the initial session reaches, the
    close of a registered participant's connection takes its entry out of
    the registry, and the close of the coordinator's connection empties the
    slot, whatever other listeners these connections have; a close sends
    nothing. *)
Theorem close_always_cleans (url : string) (evs : list event) :
  let w := after (TS.run url evs) (TS.session url) in
  (forall k ws, TS.Session.clients (this w) !! k = Some ws ->
     TS.Session.clients (this (after (TS.dispatch url (CloseEvent ws)) w)) !! k = None) /\
  (forall c, TS.Session.serverWS (this w) = Some c ->
     TS.Session.serverWS (this (after (TS.dispatch url (CloseEvent c)) w)) = None) /\
  (forall ws, sent (after (TS.dispatch url (CloseEvent ws)) w) = sent w).
Proof.
  cbv zeta. destruct (wired_run url evs _ (wired_session url)) as [Hk Hc].
  split; [|split].
  - intros k ws [_ Hcl]%Hk. unfold after. rewrite TS_close_event_eq. simpl.
    by apply closed_by_clients_in.
  - intros c [_ Hcl]%Hc. unfold after. rewrite TS_close_event_eq. simpl.
    rewrite closed_by_serverWS. by rewrite bool_decide_eq_true_2.
  - intros ws. unfold after. by rewrite TS_close_event_eq.
Qed.

Lemma close_always_cleans_witness :
  let w := after (TS.run example_url
                    [ServerConnection 1%nat; ClientConnection 2%nat; ClientConnection 3%nat])
                 (TS.session example_url) in
  TS.Session.clients (this w) !! 2 = Some 3%nat /\
  TS.Session.clients (this (after (TS.dispatch example_url (CloseEvent 3%nat)) w)) !! 2 = None.
Proof.
  split; [vm_compute; reflexivity|].
  apply (proj1 (close_always_cleans example_url
                  [ServerConnection 1%nat; ClientConnection 2%nat; ClientConnection 3%nat])).
  vm_compute; reflexivity.
Defined.

Lemma registered_connections_are_wired_witness :
  let w := after (TS.run example_url
                    [ServerConnection 1%nat; ClientConnection 2%nat; ClientConnection 3%nat])
                 (TS.session example_url) in
  TS.Session.clients (this w) !! 2 = Some 3%nat /\
  OnClientMessage 2 ∈ message_listeners w 3%nat /\ OnClientClose 2 ∈ close_listeners w 3%nat.
Proof.
  split; [vm_compute; reflexivity|].
  apply (proj1 (registered_connections_are_wired example_url
                  [ServerConnection 1%nat; ClientConnection 2%nat; ClientConnection 3%nat])).
  vm_compute; reflexivity.
Defined.

Lemma listeners_below_session url : listeners_below (TS.session url).
Proof.
  assert (forall ws k, ~ OnClientMessage k ∈ message_listeners (TS.session url) ws) as H.
  { intros ws k. unfold message_listeners. simpl. rewrite lookup_empty. simpl.
    by intros ?%elem_of_nil. }
  split; [|split].
  - intros ws k Hin. by destruct (H ws k).
  - intros ws1 ws2 k Hin. by destruct (H ws1 k).
  - intros ws k Hin. by destruct (H ws k).
Qed.

Lemma listeners_below_dispatch url ev (w : World TS.Session.t) :
  serverNodeID < TS.Session.nextNodeID (this w) ->
  listeners_below w -> listeners_below (after (TS.dispatch url ev) w).
Proof.
  intros Hpos (Hb & Hu & Hg).
  destruct (TS_dispatch_cases url ev w)
    as [[out ->]|[(ws & -> & Hs & ->)|[(ws & c & -> & Hs & ->)|(ws & -> & ->)]]].
  - split; [done|]. split; [done|]. intros ws k H. simpl.
    apply elem_of_app. left. by apply Hg.
  - assert (forall ws' k,
              OnClientMessage k ∈ message_listeners
                (mkWorld (TS.set_serverWS (Some ws) (this w))
                   (listening (on_message w) ws OnServerMessage)
                   (listening (on_close w) ws OnServerClose)
                   (sent w ++ [(ws, hello_message serverNodeID url)])) ws' ->
              OnClientMessage k ∈ message_listeners w ws') as Hold.
    { intros ws' k. unfold message_listeners. simpl. rewrite listening_lookup.
      case_decide; subst; [|done].
      intros [H|H%list_elem_of_singleton]%elem_of_app; done. }
    split; [|split].
    + intros ws' k H%Hold. by apply Hb in H.
    + intros ws1 ws2 k H1%Hold H2%Hold. eauto.
    + intros ws' k H%Hold. simpl. apply elem_of_app. left. by apply Hg.
  - cbv zeta.
    assert (forall ws' k,
              OnClientMessage k ∈ message_listeners
                (mkWorld (TS.set_nextNodeID (TS.Session.nextNodeID (this w) + 1)
                            (TS.set_clients
                               (<[TS.Session.nextNodeID (this w) := ws]>
                                  (TS.Session.clients (this w))) (this w)))
                   (listening (on_message w) ws (OnClientMessage (TS.Session.nextNodeID (this w))))
                   (listening (on_close w) ws (OnClientClose (TS.Session.nextNodeID (this w))))
                   (sent w ++ [(ws, hello_message (TS.Session.nextNodeID (this w))
                                      (TS.Session.iceServerUrl (this w)));
                               (c, clientConnected_message (TS.Session.nextNodeID (this w)))]))
                ws' ->
              OnClientMessage k ∈ message_listeners w ws' \/
              (ws' = ws /\ k = TS.Session.nextNodeID (this w))) as Hold.
    { intros ws' k. unfold message_listeners. simpl. rewrite listening_lookup.
      case_decide; subst; [|by left].
      intros [H|H%list_elem_of_singleton]%elem_of_app; [by left|right].
      by injection H as ->. }
    split; [|split].
    + intros ws' k [H|[-> ->]]%Hold; simpl; [apply Hb in H; lia|lia].
    + intros ws1 ws2 k [H1|[-> ->]]%Hold [H2|[-> E]]%Hold; subst; eauto.
      * apply Hb in H1. lia.
      * apply Hb in H2. lia.
    + intros ws' k [H|[-> ->]]%Hold; simpl; apply elem_of_app.
      * left. by apply Hg.
      * right. apply list_elem_of_here.
  - destruct (closed_by_rest (this w) (close_listeners w ws)) as [Hn Hurl].
    split; [|split].
    + intros ws' k H. simpl. rewrite Hn. by apply (Hb ws').
    + done.
    + intros ws' k H. simpl. rewrite Hurl. by apply Hg.
Qed.

Lemma listeners_below_run url evs (w : World TS.Session.t) :
  registry_below w -> listeners_below w -> listeners_below (after (TS.run url evs) w).
Proof.
  revert w. induction evs as [|ev evs IH]; intros w Hr Hl; [done|].
  rewrite TS_after_run_cons. apply IH.
  - by apply registry_below_dispatch.
  - apply listeners_below_dispatch; [apply Hr|done].
Qed.

(** X9. In every world that a run from the initial session reaches: when a
    message event on a connection [ws] makes the session send a message
    that carries a [nodeID], that [nodeID] is a number [k] already given
    out, [ws] is the only connection with the message listener of [k], and
    [ws] was sent the [hello] with [nodeID: k].  A connection cannot make
    the session stamp a message with another participant's identifier. *)
Theorem stamped_messages_are_authentic (url : string) (evs : list event)
    (ws : WebSocket) (d : data) (p : WebSocket * json) (v : json) :
  let w := after (TS.run url evs) (TS.session url) in
  p ∈ emitted w (after (TS.dispatch url (MessageEvent ws d)) w) ->
  message_nodeID p.2 = Some v ->
  exists k,
    v = JNumber k /\
    serverNodeID < k < TS.Session.nextNodeID (this w) /\
    OnClientMessage k ∈ message_listeners w ws /\
    (forall ws', OnClientMessage k ∈ message_listeners w ws' -> ws' = ws) /\
    (ws, hello_message k url) ∈ sent w.
Proof.
  intros w. unfold after at 1. rewrite TS_message_event_out. cbn [snd].
  rewrite emitted_delivered. intros (l & Hl & Hp)%elem_of_concat_map Hv.
  apply relay_out_inv in Hp.
  destruct (listeners_below_run url evs _ (registry_below_session url)
              (listeners_below_session url)) as (Hb & Hu & Hg).
  fold w in Hb, Hu, Hg.
  destruct l as [|k].
  - destruct Hp as (props & n & _ & _ & _ & Hp2). rewrite Hp2 in Hv. simpl in Hv.
    by rewrite lookup_fmap, lookup_delete_eq in Hv.
  - destruct Hp as [_ [(elems & _ & Hp2)|(props & _ & _ & Hp2)]]; rewrite Hp2 in Hv;
      simpl in Hv; [discriminate|].
    rewrite lookup_fmap, lookup_insert_eq in Hv. injection Hv as <-.
    exists k. split; [done|]. split; [by apply (Hb ws)|]. split; [done|].
    split; [intros ws' H; by apply (Hu ws' ws k)|].
    specialize (Hg ws k Hl). subst w. by rewrite TS_run_url in Hg.
Qed.

Lemma stamped_messages_are_authentic_witness :
  let evs := [ServerConnection 1%nat; ClientConnection 2%nat] in
  let d := JSONText (JObject {[ "nodeID" := JNumber 99; "x" := JNumber 1 ]}) in
  let p := (1%nat, JObject {[ "nodeID" := JNumber 1; "x" := JNumber 1 ]}) in
  exists k, JNumber 1 = JNumber k /\
    serverNodeID < k <
      TS.Session.nextNodeID (this (after (TS.run example_url evs) (TS.session example_url))) /\
    OnClientMessage k ∈
      message_listeners (after (TS.run example_url evs) (TS.session example_url)) 2%nat /\
    (forall ws', OnClientMessage k ∈
         message_listeners (after (TS.run example_url evs) (TS.session example_url)) ws' ->
       ws' = 2%nat) /\
    (2%nat, hello_message k example_url) ∈
      sent (after (TS.run example_url evs) (TS.session example_url)).
Proof.
  intros evs d p.
  apply (stamped_messages_are_authentic example_url evs 2%nat d p (JNumber 1)).
  - vm_compute. apply list_elem_of_here.
  - vm_compute. reflexivity.
Defined.

(** ** Connections that were turned away, and participants that stay *)

Lemma TS_unheard_event url ws ev (w : World TS.Session.t) :
  on_message w !! ws = None -> on_close w !! ws = None ->
  event_of ws ev = true ->
  TS.dispatch url ev w = (Normal tt, w).
Proof.
  intros Hm Hc. destruct ev as [?|?|ws' d|ws']; try discriminate; simpl;
    intros ->%bool_decide_eq_true.
  - change (TS.dispatch url (MessageEvent ws d) w = (Normal tt, w)).
    rewrite TS_message_event_out. unfold message_listeners. rewrite Hm. simpl.
    by rewrite delivered_nil.
  - change (TS.dispatch url (CloseEvent ws) w = (Normal tt, w)).
    rewrite TS_close_event_eq. unfold close_listeners. rewrite Hc. simpl. by destruct w.
Qed.

Lemma TS_unheard_run url ws evs (w : World TS.Session.t) :
  on_message w !! ws = None -> on_close w !! ws = None ->
  forallb (event_of ws) evs = true ->
  after (TS.run url evs) w = w.
Proof.
  intros Hm Hc. induction evs as [|ev evs IH]; [done|].
  cbn [forallb]. intros [Hev Hevs]%andb_prop.
  rewrite TS_after_run_cons. unfold after at 2.
  rewrite (TS_unheard_event url ws ev w Hm Hc Hev). by apply IH.
Qed.

(** X10. A connection that an admission turns away gets no listener: if it
    had none before, then whatever it sends afterwards and whenever it
    closes, nothing more happens.  The run of the rejected admission and of
    any later messages and closes of that connection ends in the world of
    before with the one [error] message added; in particular the close of a
    second coordinator does not detach the first. *)
Theorem rejected_connection_is_inert (url : string) (w : World TS.Session.t)
    (ws : WebSocket) (evs : list event) :
  on_message w !! ws = None -> on_close w !! ws = None ->
  forallb (event_of ws) evs = true ->
  (is_Some (TS.Session.serverWS (this w)) ->
   after (TS.run url (ServerConnection ws :: evs)) w = delivered w [(ws, error_message)]) /\
  (TS.Session.serverWS (this w) = None ->
   after (TS.run url (ClientConnection ws :: evs)) w = delivered w [(ws, error_message)]).
Proof.
  intros Hm Hc Hevs. split.
  - intros [c Hs]. rewrite TS_after_run_cons. unfold after at 2. cbn [TS.dispatch].
    rewrite (TS_handleServerConnection_attached url w ws c Hs). cbn [snd].
    by apply (TS_unheard_run url ws).
  - intros Hs. rewrite TS_after_run_cons. unfold after at 2. cbn [TS.dispatch].
    rewrite (TS_handleClientConnection_rejected w ws Hs). cbn [snd].
    by apply (TS_unheard_run url ws).
Qed.

Lemma rejected_connection_is_inert_witness :
  let evs := [MessageEvent 3%nat (JSONText (JObject {[ "nodeID" := JNumber 1 ]}));
              MessageEvent 3%nat (NotJSON "x"); CloseEvent 3%nat] in
  after (TS.run example_url (ServerConnection 3%nat :: evs)) one_participant_ts =
    delivered one_participant_ts [(3%nat, error_message)].
Proof.
  intros evs.
  apply (rejected_connection_is_inert example_url one_participant_ts 3%nat evs);
    [reflexivity|reflexivity|reflexivity|].
  exists 1%nat. reflexivity.
Defined.

(** X11. When a coordinator attaches to a session whose registry is not
    empty, it is sent its [hello] and nothing about the participants that
    are registered; the registry stays as it is, and the next object that a
    participant [k] sends goes to the new coordinator as to any other: with
    [nodeID: k] when its declared [nodeID], if any, converts to a string,
    and not at all when it does not. *)
Theorem next_coordinator_inherits_participants (url : string) (w : World TS.Session.t)
    (c : WebSocket) (k : Z) (props : gmap string json) :
  TS.Session.serverWS (this w) = None ->
  let w1 := after (TS.handleServerConnection url c) w in
  let w2 := after (TS.handleClientMessage k (JSONText (JObject props))) w1 in
  emitted w w1 = [(c, hello_message serverNodeID url)] /\
  TS.Session.clients (this w1) = TS.Session.clients (this w) /\
  emitted w1 w2 =
    if from_option ToString_throws false (props !! "nodeID") then []
    else [(c, written (JObject (<["nodeID" := JNumber k]> props)))].
Proof.
  intros Hs. cbv zeta. unfold after.
  rewrite (TS_handleServerConnection_free url w c Hs). cbn [snd].
  rewrite TS_handleClientMessage_eq. cbn [snd this TS.set_serverWS TS.Session.serverWS
    forwarded].
  split; [|split; [done|]].
  - unfold emitted. simpl. apply drop_app_length.
  - destruct (from_option ToString_throws false (props !! "nodeID")).
    + unfold emitted. by rewrite drop_all.
    + by rewrite emitted_delivered.
Qed.

Lemma next_coordinator_inherits_participants_witness :
  let w := after (TS.dispatch example_url (CloseEvent 1%nat)) one_participant_ts in
  let w1 := after (TS.handleServerConnection example_url 5%nat) w in
  let hidden : gmap string json := {[ "nodeID" := JObject {[ "toString" := JNull ]} ]} in
  TS.Session.clients (this w) !! 1 = Some 2%nat /\
  emitted w w1 = [(5%nat, hello_message serverNodeID example_url)] /\
  emitted w1 (after (TS.handleClientMessage 1 (JSONText (JObject ∅))) w1) =
    [(5%nat, JObject {[ "nodeID" := JNumber 1 ]})] /\
  emitted w1 (after (TS.handleClientMessage 1 (JSONText (JObject hidden))) w1) = [].
Proof.
  intros w w1 hidden. split; [vm_compute; reflexivity|].
  destruct (next_coordinator_inherits_participants example_url w 5%nat 1 ∅)
    as (H1 & _ & H2); [reflexivity|].
  destruct (next_coordinator_inherits_participants example_url w 5%nat 1 hidden)
    as (_ & _ & H3); [reflexivity|].
  split; [exact H1|]. split.
  - subst w1. rewrite H2. vm_compute. reflexivity.
  - subst w1. rewrite H3. vm_compute. reflexivity.
Defined.

(** * The program: [start] and the upgrade handler *)

Lemma in_world_normal {S} (m : M (World S) unit) (p : Program S) w' :
  m (world p) = (Normal tt, w') ->
  in_world m p = (Normal tt, mkProgram w' (wssForServer p) (wssForClient p)).
Proof. unfold in_world. by intros ->. Qed.

Lemma JS_dispatch_eq ev (w : World JS.Session.t) :
  JS.dispatch ev w = (Normal tt, after (JS.dispatch ev) w).
Proof.
  pose proof (JS_dispatch_normal ev w) as H. unfold outcome, after in *.
  destruct (JS.dispatch ev w) as [r w']. simpl in *. by subst.
Qed.

Lemma JS_after_run_cons ev evs (w : World JS.Session.t) :
  after (JS.run (ev :: evs)) w = after (JS.run evs) (after (JS.dispatch ev) w).
Proof. unfold after at 1 2. simpl. unfold bind. by rewrite JS_dispatch_eq. Qed.

Section TS_program.
Variables (url pathForServer pathForClient : string).

Lemma TSMain_main_eq : TSMain.main url = started (TS.session url).
Proof. done. Qed.

Lemma in_world_dispatch ev (w : World TS.Session.t) a b :
  in_world (TS.dispatch url ev) (mkProgram w a b) =
    (Normal tt, mkProgram (after (TS.dispatch url ev) w) a b).
Proof. apply (in_world_normal _ (mkProgram w a b)). simpl. apply TS_dispatch_eq. Qed.

Lemma TSMain_handle_started i (w : World TS.Session.t) :
  TSMain.handle url pathForServer pathForClient i (started w) =
    (Normal tt,
     started (after (TS.run url
                       (option_list (route (String.append "/" pathForServer)
                                           (String.append "/" pathForClient) i))) w)).
Proof.
  unfold started.
  destruct i as [[u [ws|]]|ws d|ws]; cbn [TSMain.handle route handshake req_url].
  - unfold TSMain.upgrade. cbn [handshake req_url].
    repeat case_decide; cbn [option_list option_rect]; try done.
    + unfold bind at 1, get. cbn [wssForServer emit_connection TSMain.call_connection].
      unfold bind.
      change (TS.handleServerConnection url ws) with (TS.dispatch url (ServerConnection ws)).
      by rewrite in_world_dispatch, TS_after_run_cons.
    + unfold bind at 1, get. cbn [wssForClient emit_connection TSMain.call_connection].
      unfold bind.
      change (TS.handleClientConnection ws) with (TS.dispatch url (ClientConnection ws)).
      by rewrite in_world_dispatch, TS_after_run_cons.
  - unfold TSMain.upgrade. cbn [handshake req_url]. by repeat case_decide.
  - cbn [option_list option_rect]. by rewrite in_world_dispatch, TS_after_run_cons.
  - cbn [option_list option_rect]. by rewrite in_world_dispatch, TS_after_run_cons.
Qed.

Lemma TSMain_serve_started inputs (w : World TS.Session.t) :
  TSMain.serve url pathForServer pathForClient inputs (started w) =
    (Normal tt,
     started (after (TS.run url
                       (omap (route (String.append "/" pathForServer)
                                    (String.append "/" pathForClient)) inputs)) w)).
Proof.
  revert w. induction inputs as [|i inputs IH]; intros w; [done|].
  cbn [TSMain.serve]. unfold bind. rewrite TSMain_handle_started, IH.
  cbn [omap list_omap].
  destruct (route _ _ i) as [ev|]; cbn [option_list option_rect]; [|done].
  rewrite (TS_after_run_cons url ev (omap _ inputs)).
  by rewrite (TS_after_run_cons url ev []).
Qed.
End TS_program.

(** X12. The program of [src/app.ts], once started, does on any sequence
    of upgrade requests, messages and closes what its session does on the
    events they amount to, and never throws: a request whose handshake
    succeeds is a coordinator admission when its URL is ["/" + pathForServer],
    else a participant admission when it is ["/" + pathForClient], and is
    dropped otherwise; the pools keep the listeners of [start]. *)
Theorem program_runs_the_session (url pathForServer pathForClient : string)
    (inputs : list input) :
  TSMain.serve url pathForServer pathForClient inputs (TSMain.main url) =
    (Normal tt,
     mkProgram
       (after (TS.run url (omap (route (String.append "/" pathForServer)
                                       (String.append "/" pathForClient)) inputs))
              (TS.session url))
       [HandleServerConnection] [HandleClientConnection]).
Proof. rewrite TSMain_main_eq. apply TSMain_serve_started. Qed.

Lemma program_runs_the_session_witness :
  let inputs := [Upgrade (mkRequest "/client" (Some 7%nat));
                 Upgrade (mkRequest "/server" (Some 1%nat));
                 Upgrade (mkRequest "/server?x" (Some 8%nat));
                 Upgrade (mkRequest "/client" None);
                 Upgrade (mkRequest "/client" (Some 2%nat));
                 Message 2%nat (JSONText (JObject ∅)); Close 2%nat] in
  sent (world (after (TSMain.serve example_url "server" "client" inputs)
                     (TSMain.main example_url))) =
    [(7%nat, error_message); (1%nat, hello_message 0 example_url);
     (2%nat, hello_message 1 example_url); (1%nat, clientConnected_message 1);
     (1%nat, JObject {[ "nodeID" := JNumber 1 ]})].
Proof.
  intros inputs. unfold after.
  rewrite (program_runs_the_session example_url "server" "client" inputs).
  vm_compute. reflexivity.
Defined.

(** X13. [start] is what connects both pools to the session, once per
    call.  Before it has run, no upgrade request changes anything and
    nobody is answered.  After it has run once, a request is handled as the
    one event it amounts to; after it has run twice, each pool has its
    handler twice and every request that reaches a pool is handled twice:
    a coordinator that finds the slot free is sent its [hello] and then an
    [error], and a participant is admitted twice, under two identifiers. *)
Theorem start_twice_handles_twice (url pathForServer pathForClient : string)
    (w : World TS.Session.t) (req : Request) :
  let unstarted := mkProgram w [] [] in
  let once := after TSMain.start unstarted in
  let twice := after TSMain.start once in
  let evs := option_list (route (String.append "/" pathForServer)
                                (String.append "/" pathForClient) (Upgrade req)) in
  let upgrade := TSMain.upgrade url pathForServer pathForClient req in
  upgrade unstarted = (Normal tt, unstarted) /\
  upgrade once =
    (Normal tt, mkProgram (after (TS.run url evs) w)
                          [HandleServerConnection] [HandleClientConnection]) /\
  upgrade twice =
    (Normal tt, mkProgram (after (TS.run url (evs ++ evs)) w)
                          [HandleServerConnection; HandleServerConnection]
                          [HandleClientConnection; HandleClientConnection]) /\
  (forall ws, TS.Session.serverWS (this w) = None ->
     req = mkRequest (String.append "/" pathForServer) (Some ws) ->
     emitted w (world (after upgrade twice)) =
       [(ws, hello_message serverNodeID url); (ws, error_message)]) /\
  (forall ws c, TS.Session.serverWS (this w) = Some c ->
     String.append "/" pathForClient <> String.append "/" pathForServer ->
     req = mkRequest (String.append "/" pathForClient) (Some ws) ->
     let n := TS.Session.nextNodeID (this w) in
     let u := TS.Session.iceServerUrl (this w) in
     emitted w (world (after upgrade twice)) =
       [(ws, hello_message n u); (c, clientConnected_message n);
        (ws, hello_message (n + 1) u); (c, clientConnected_message (n + 1))] /\
     TS.Session.clients (this (world (after upgrade twice))) !! n = Some ws /\
     TS.Session.clients (this (world (after upgrade twice))) !! (n + 1) = Some ws).
Proof.
  cbv zeta.
  change (after TSMain.start (mkProgram w [] []))
    with (mkProgram w [HandleServerConnection] [HandleClientConnection]).
  change (after TSMain.start (mkProgram w [HandleServerConnection] [HandleClientConnection]))
    with (mkProgram w [HandleServerConnection; HandleServerConnection]
                      [HandleClientConnection; HandleClientConnection]).
  assert (TSMain.upgrade url pathForServer pathForClient req
            (mkProgram w [HandleServerConnection; HandleServerConnection]
                         [HandleClientConnection; HandleClientConnection]) =
          (Normal tt,
           mkProgram
             (after (TS.run url
                       (option_list (route (String.append "/" pathForServer)
                                           (String.append "/" pathForClient) (Upgrade req))
                        ++ option_list (route (String.append "/" pathForServer)
                                              (String.append "/" pathForClient) (Upgrade req))))
                    w)
             [HandleServerConnection; HandleServerConnection]
             [HandleClientConnection; HandleClientConnection])) as Htwice.
  { destruct req as [r [ws|]]; unfold TSMain.upgrade; cbn [route handshake req_url].
    - repeat case_decide; cbn [option_list option_rect app]; try done.
      + unfold bind at 1, get. cbn [wssForServer emit_connection TSMain.call_connection].
        change (TS.handleServerConnection url ws) with (TS.dispatch url (ServerConnection ws)).
        unfold bind. rewrite in_world_dispatch, in_world_dispatch.
        by rewrite !TS_after_run_cons.
      + unfold bind at 1, get. cbn [wssForClient emit_connection TSMain.call_connection].
        change (TS.handleClientConnection ws) with (TS.dispatch url (ClientConnection ws)).
        unfold bind. rewrite in_world_dispatch, in_world_dispatch.
        by rewrite !TS_after_run_cons.
    - by repeat case_decide. }
  split; [|split; [|split; [exact Htwice|split]]].
  - destruct req as [r [ws|]]; unfold TSMain.upgrade; cbn [handshake req_url];
      by repeat case_decide.
  - apply (TSMain_handle_started url pathForServer pathForClient (Upgrade req) w).
  - intros ws Hs ->. unfold after at 1. rewrite Htwice. cbn [snd world route handshake req_url].
    rewrite decide_True by done. cbn [option_list option_rect app].
    rewrite !TS_after_run_cons. unfold after. cbn [TS.dispatch TS.run].
    rewrite (TS_handleServerConnection_free url w ws Hs). cbn [snd].
    rewrite (TS_handleServerConnection_attached url _ ws ws) by done.
    unfold emitted, delivered, ret. cbn [snd sent]. rewrite <- app_assoc. apply drop_app_length.
  - intros ws c Hs Hne ->. cbv zeta. unfold after at 1 2 3. rewrite Htwice.
    cbn [snd world route handshake req_url].
    rewrite decide_False by done. rewrite decide_True by done.
    cbn [option_list option_rect app].
    rewrite !TS_after_run_cons. unfold after. cbn [TS.dispatch TS.run].
    rewrite (TS_handleClientConnection_admitted w ws c Hs). cbn [snd].
    rewrite (TS_handleClientConnection_admitted _ ws c) by done.
    unfold emitted, ret. cbn [snd sent this TS.set_nextNodeID TS.set_clients
      TS.Session.nextNodeID TS.Session.clients TS.Session.iceServerUrl TS.Session.serverWS].
    rewrite <- app_assoc, drop_app_length. split; [done|]. split.
    + rewrite lookup_insert_ne by lia. apply lookup_insert_eq.
    + apply lookup_insert_eq.
Qed.

Lemma start_twice_handles_twice_witness :
  let twice w := after TSMain.start (after TSMain.start (mkProgram w [] [])) in
  emitted (TS.session example_url)
          (world (after (TSMain.upgrade example_url "server" "client"
                           (mkRequest "/server" (Some 1%nat)))
                        (twice (TS.session example_url)))) =
    [(1%nat, hello_message serverNodeID example_url); (1%nat, error_message)] /\
  emitted one_participant_ts
          (world (after (TSMain.upgrade example_url "server" "client"
                           (mkRequest "/client" (Some 3%nat)))
                        (twice one_participant_ts))) =
    [(3%nat, hello_message 2 example_url); (1%nat, clientConnected_message 2);
     (3%nat, hello_message 3 example_url); (1%nat, clientConnected_message 3)].
Proof.
  intros twice. split.
  - apply (start_twice_handles_twice example_url "server" "client"
             (TS.session example_url) (mkRequest "/server" (Some 1%nat)));
      reflexivity.
  - apply (start_twice_handles_twice example_url "server" "client"
             one_participant_ts (mkRequest "/client" (Some 3%nat)) ) with (c := 1%nat);
      [reflexivity|discriminate|reflexivity].
Defined.

(** ** Paths *)

Lemma run_without_participants url evs (w : World TS.Session.t) :
  Forall (fun ev => forall ws, ev <> ClientConnection ws) evs ->
  TS.Session.clients (this (after (TS.run url evs) w)) ⊆ TS.Session.clients (this w) /\
  TS.Session.nextNodeID (this (after (TS.run url evs) w)) = TS.Session.nextNodeID (this w).
Proof.
  intros H. revert w. induction H as [|ev evs Hev _ IH]; intros w; [done|].
  rewrite TS_after_run_cons. destruct (IH (after (TS.dispatch url ev) w)) as [Hc ->].
  destruct (TS_dispatch_cases url ev w)
    as [[out E]|[(ws & -> & Hs & E)|[(ws & c & -> & _)|(ws & -> & E)]]].
  - rewrite E in *. by split.
  - rewrite E in *. by split.
  - by destruct (Hev ws).
  - rewrite E in *. simpl in *. split.
    + etrans; [exact Hc|apply closed_by_clients_sub].
    + apply closed_by_rest.
Qed.

(** X14. If the configuration gives the two paths the same value, the
    first comparison of the upgrade handler always wins: every accepted
    request on that path is a coordinator admission, and over any sequence
    of requests, messages and closes no participant is ever registered and
    the counter stays at 1. *)
Theorem equal_paths_admit_no_participant (url path : string) (inputs : list input) :
  let p := after (TSMain.serve url path path inputs) (TSMain.main url) in
  TS.Session.clients (this (world p)) = ∅ /\
  TS.Session.nextNodeID (this (world p)) = 1.
Proof.
  cbv zeta. unfold after at 1 2.
  change (TSMain.main url) with (started (TS.session url)).
  rewrite (TSMain_serve_started url path path inputs (TS.session url)).
  unfold started. cbn [snd world].
  destruct (run_without_participants url
              (omap (route (String.append "/" path) (String.append "/" path)) inputs)
              (TS.session url)) as [Hc Hn].
  - clear. induction inputs as [|i inputs IH]; [constructor|].
    cbn [omap list_omap]. destruct (route _ _ i) as [ev|] eqn:E; [|done].
    constructor; [|done]. intros ws ->.
    destruct i as [[u [ws'|]]|ws' d|ws']; simpl in E; try discriminate.
    repeat case_decide; discriminate.
  - split; [|by rewrite Hn]. apply map_eq. intros k. rewrite lookup_empty.
    destruct (TS.Session.clients _ !! k) as [c|] eqn:E; [|done].
    eapply lookup_weaken in E; [|exact Hc]. simpl in E. by rewrite lookup_empty in E.
Qed.

Lemma equal_paths_admit_no_participant_witness :
  let inputs := [Upgrade (mkRequest "/ws" (Some 1%nat)); Upgrade (mkRequest "/ws" (Some 2%nat));
                 Close 1%nat; Upgrade (mkRequest "/ws" (Some 3%nat))] in
  sent (world (after (TSMain.serve example_url "ws" "ws" inputs) (TSMain.main example_url))) =
    [(1%nat, hello_message 0 example_url); (2%nat, error_message);
     (3%nat, hello_message 0 example_url)] /\
  TS.Session.clients
    (this (world (after (TSMain.serve example_url "ws" "ws" inputs)
                        (TSMain.main example_url)))) = ∅.
Proof.
  intros inputs. split; [vm_compute; reflexivity|].
  apply (equal_paths_admit_no_participant example_url "ws" inputs).
Defined.

(** ** The program of [src/app.js] *)

Lemma JS_in_world_dispatch ev (w : World JS.Session.t) a b :
  in_world (JS.dispatch ev) (mkProgram w a b) =
    (Normal tt, mkProgram (after (JS.dispatch ev) w) a b).
Proof. apply (in_world_normal _ (mkProgram w a b)). simpl. apply JS_dispatch_eq. Qed.

Lemma JSMain_handle_started i (w : World JS.Session.t) :
  JSMain.handle i (mkProgram w [HandleServerConnection] [HandleClientConnection]) =
    (Normal tt,
     mkProgram (after (JS.run (option_list (route JSMain.pathForServer
                                                  JSMain.pathForClient i))) w)
               [HandleServerConnection] [HandleClientConnection]).
Proof.
  destruct i as [[u [ws|]]|ws d|ws]; cbn [JSMain.handle route handshake req_url].
  - unfold JSMain.upgrade. cbn [handshake req_url].
    repeat case_decide; cbn [option_list option_rect]; try done.
    + unfold bind at 1, get. cbn [wssForServer emit_connection JSMain.call_connection].
      unfold bind.
      change (JS.handleServerConnection ws) with (JS.dispatch (ServerConnection ws)).
      by rewrite JS_in_world_dispatch, JS_after_run_cons.
    + unfold bind at 1, get. cbn [wssForClient emit_connection JSMain.call_connection].
      unfold bind.
      change (JS.handleClientConnection ws) with (JS.dispatch (ClientConnection ws)).
      by rewrite JS_in_world_dispatch, JS_after_run_cons.
  - unfold JSMain.upgrade. cbn [handshake req_url]. by repeat case_decide.
  - cbn [option_list option_rect]. by rewrite JS_in_world_dispatch, JS_after_run_cons.
  - cbn [option_list option_rect]. by rewrite JS_in_world_dispatch, JS_after_run_cons.
Qed.

Lemma JSMain_serve_started inputs (w : World JS.Session.t) :
  JSMain.serve inputs (mkProgram w [HandleServerConnection] [HandleClientConnection]) =
    (Normal tt,
     mkProgram (after (JS.run (omap (route JSMain.pathForServer JSMain.pathForClient) inputs)) w)
               [HandleServerConnection] [HandleClientConnection]).
Proof.
  revert w. induction inputs as [|i inputs IH]; intros w; [done|].
  cbn [JSMain.serve]. unfold bind. rewrite JSMain_handle_started, IH.
  cbn [omap list_omap].
  destruct (route _ _ i) as [ev|]; cbn [option_list option_rect]; [|done].
  rewrite (JS_after_run_cons ev (omap _ inputs)).
  by rewrite (JS_after_run_cons ev []).
Qed.

(** X15. The two programs, upgrade handler included, behave alike when
    [config.yml] gives [src/app.ts] the values that [src/app.js] has built
    in (the paths "server" and "client", without the slash that
    [src/app.ts] prepends, and the same URL): on every sequence of upgrade
    requests, messages and closes, both complete, route each request to the
    same admission, and end with the same slot, registry, counter,
    listeners and messages sent. *)
Theorem programs_equivalent (inputs : list input) :
  let ts := TSMain.serve JS.iceServerUrl "server" "client" inputs
              (TSMain.main JS.iceServerUrl) in
  let js := JSMain.serve inputs JSMain.main in
  fst ts = Normal tt /\ fst js = Normal tt /\
  world (snd js) = erase (world (snd ts)) /\
  sent (world (snd js)) = sent (world (snd ts)) /\
  wssForServer (snd js) = wssForServer (snd ts) /\
  wssForClient (snd js) = wssForClient (snd ts).
Proof.
  cbv zeta.
  change (TSMain.main JS.iceServerUrl) with (started (TS.session JS.iceServerUrl)).
  change JSMain.main
    with (mkProgram (erase (TS.session JS.iceServerUrl))
            [HandleServerConnection] [HandleClientConnection]).
  rewrite TSMain_serve_started, JSMain_serve_started. unfold started.
  cbn [fst snd world wssForServer wssForClient].
  change (String.append "/" "server") with JSMain.pathForServer.
  change (String.append "/" "client") with JSMain.pathForClient.
  pose proof (sim_run (omap (route JSMain.pathForServer JSMain.pathForClient) inputs)
                (TS.session JS.iceServerUrl) eq_refl) as H.
  unfold simulates in H. unfold after. rewrite H. cbn [snd].
  repeat split; done.
Qed.

(** * Registry keys in the worlds a run reaches *)

(** X16. In every world that a run from the initial session reaches, the
    keys of the registry lie strictly between 0 and the counter; a
    coordinator message addressed to 0 (the coordinator's own identifier),
    to a negative number or to a number not given out yet is dropped and
    changes nothing. *)
Theorem unassigned_identifiers_address_nobody (url : string) (evs : list event)
    (props : gmap string json) (n : Z) :
  let w := after (TS.run url evs) (TS.session url) in
  props !! "nodeID" = Some (JNumber n) ->
  n <= serverNodeID \/ TS.Session.nextNodeID (this w) <= n ->
  TS.Session.clients (this w) !! n = None /\
  TS.handleServerMessage (JSONText (JObject props)) w = (Normal tt, w).
Proof.
  intros w Hp Hn.
  destruct (registry_below_run url evs _ (registry_below_session url)) as [_ Hk].
  fold w in Hk.
  assert (TS.Session.clients (this w) !! n = None) as Hnone.
  { destruct (TS.Session.clients (this w) !! n) as [c|] eqn:E; [|done].
    specialize (Hk _ _ E). lia. }
  split; [done|]. rewrite TS_handleServerMessage_eq, Hp. simpl. by rewrite Hnone.
Qed.

Lemma unassigned_identifiers_address_nobody_witness :
  let evs := [ServerConnection 1%nat; ClientConnection 2%nat] in
  let props : gmap string json := {[ "nodeID" := JNumber 0; "foo" := JString "bar" ]} in
  let w := after (TS.run example_url evs) (TS.session example_url) in
  TS.Session.clients (this w) !! 0 = None /\
  TS.handleServerMessage (JSONText (JObject props)) w = (Normal tt, w).
Proof.
  intros evs props.
  apply (unassigned_identifiers_address_nobody example_url evs props 0).
  - reflexivity.
  - left. unfold serverNodeID. lia.
Defined.

(** X17. In every world that a run from the initial session reaches, each
    connection in the registry has been sent the [hello] that carries the
    key of its entry and the URL the session was constructed with. *)
Theorem registered_participants_were_greeted (url : string) (evs : list event)
    (k : Z) (ws : WebSocket) :
  let w := after (TS.run url evs) (TS.session url) in
  TS.Session.clients (this w) !! k = Some ws ->
  (ws, hello_message k url) ∈ sent w.
Proof.
  intros w Hk.
  destruct (wired_run url evs _ (wired_session url)) as [Hw _].
  destruct (listeners_below_run url evs _ (registry_below_session url)
              (listeners_below_session url)) as (_ & _ & Hg).
  fold w in Hw, Hg. apply Hw in Hk as [Hm _]. apply Hg in Hm.
  subst w. by rewrite TS_run_url in Hm.
Qed.

Lemma registered_participants_were_greeted_witness :
  let evs := [ServerConnection 1%nat; ClientConnection 2%nat; ClientConnection 3%nat;
              CloseEvent 2%nat] in
  TS.Session.clients (this (after (TS.run example_url evs) (TS.session example_url))) !! 2
    = Some 3%nat /\
  (3%nat, hello_message 2 example_url) ∈
    sent (after (TS.run example_url evs) (TS.session example_url)).
Proof.
  intros evs. split; [vm_compute; reflexivity|].
  apply (registered_participants_were_greeted example_url evs 2 3%nat).
  vm_compute; reflexivity.
Defined.
